(** * Slack KPI integration: channel classifier, KPI extractor, tabulator, sync

    A shallow embedding of [src/slack_client.py] and [src/kpi_sync.py]
    (with the parts of [src/sheets_client.py] they call), and the
    properties of the pipeline stated over it.

    Python strings are sequences of Unicode code points, so a [str] is a
    list of code points and every length, slice and comparison below
    counts code points, as Python does. *)

From Stdlib Require Import List NArith ZArith Bool Arith Lia.
From Stdlib Require String Ascii.
Import String.StringSyntax.
From Stdlib Require Import Sorted Permutation.
Import ListNotations.
Local Open Scope N_scope.

Set Implicit Arguments.

(* ================================================================== *)
(** * Python values *)
(* ================================================================== *)

Definition codepoint := N.
Definition str := list codepoint.

(** Literals: a Rocq string holds the UTF-8 bytes of its text; [u] decodes
    them into code points ([acc] is the value read so far of a multi-byte
    sequence, [need] the continuation bytes still expected). *)
Fixpoint utf8 (bs : list N) (acc : N) (need : nat) : str :=
  match bs with
  | [] => []
  | b :: tl =>
      match need with
      | O =>
          if b <? 0x80 then b :: utf8 tl 0 0
          else if b <? 0xE0 then utf8 tl (b mod 0x20) 1
          else if b <? 0xF0 then utf8 tl (b mod 0x10) 2
          else utf8 tl (b mod 0x08) 3
      | S n =>
          let acc' := acc * 64 + b mod 64 in
          match n with
          | O => acc' :: utf8 tl 0 0
          | S _ => utf8 tl acc' n
          end
      end
  end.

Definition u (s : String.string) : str :=
  utf8 (map Ascii.N_of_ascii (String.list_ascii_of_string s)) 0 0.

Arguments u s%_string_scope.

(** A one-character literal. *)
Definition chr (s : String.string) : codepoint := hd 0 (u s).

Arguments chr s%_string_scope.

Definition NEWLINE : codepoint := 10.

Definition str_eq_dec : forall a b : str, {a = b} + {a <> b} :=
  list_eq_dec N.eq_dec.

Definition str_eqb (a b : str) : bool :=
  if str_eq_dec a b then true else false.

(** [a < b] on Python strings: lexicographic on code points. *)
Fixpoint str_compare (a b : str) : comparison :=
  match a, b with
  | [], [] => Eq
  | [], _ :: _ => Lt
  | _ :: _, [] => Gt
  | x :: a', y :: b' =>
      match x ?= y with
      | Eq => str_compare a' b'
      | c => c
      end
  end.

Definition str_leb (a b : str) : bool :=
  match str_compare a b with Gt => false | _ => true end.

Definition str_lt (a b : str) : Prop := str_compare a b = Lt.

(** [text[a:b]] for [0 <= a], [0 <= b]. *)
Definition slice (t : str) (a b : nat) : str := firstn (b - a) (skipn a t).

(** [v] occurs in [t] as a contiguous run of characters. *)
Definition substring (v t : str) : Prop := exists pre post, t = pre ++ v ++ post.

(** [str(n)] for a non-negative integer: its decimal digits. *)
Fixpoint decimal_digits (fuel : nat) (n : N) (acc : str) : str :=
  match fuel with
  | O => acc
  | S f =>
      let acc' := (48 + n mod 10) :: acc in
      if n <? 10 then acc' else decimal_digits f (n / 10) acc'
  end.

Definition str_of_N (n : N) : str := decimal_digits (S (N.size_nat n)) n [].
Definition str_of_nat (n : nat) : str := str_of_N (N.of_nat n).

(** [sep.join(parts)] *)
Fixpoint join (sep : str) (parts : list str) : str :=
  match parts with
  | [] => []
  | [p] => p
  | p :: rest => p ++ sep ++ join sep rest
  end.

(** ** The interpreter's tables

    The character classes of [re] and [str] and the formatting of a
    [datetime] belong to the Python runtime, not to this repository; the
    development is parametric in them.
    - [isspace c]: [c] is whitespace for [\s] and [str.strip()]
      (both use the same predicate on [str] patterns);
    - [decimal_value c]: the value of [c] when it is a decimal digit
      (category Nd), which is what [\d] matches and [int()] accepts;
    - [isdigit c]: the character test behind [str.isdigit()];
    - [strftime t]: [t.strftime("%Y-%m-%d %H:%M:%S")] in local time. *)
Definition datetime := Z.

Class PyRuntime := {
  isspace : codepoint -> bool;
  decimal_value : codepoint -> option N;
  isdigit : codepoint -> bool;
  strftime : datetime -> str
}.

Section Strings.
Context {R : PyRuntime}.

Definition isdecimal (c : codepoint) : bool :=
  match decimal_value c with Some _ => true | None => false end.

(** [s.lstrip()], [s.rstrip()], [s.strip()] *)
Fixpoint lstrip (s : str) : str :=
  match s with
  | c :: tl => if isspace c then lstrip tl else s
  | [] => []
  end.

Definition rstrip (s : str) : str := rev (lstrip (rev s)).
Definition strip (s : str) : str := rstrip (lstrip s).

(** [s.isdigit()]: non-empty and every character is a digit. *)
Definition str_isdigit (s : str) : bool :=
  match s with
  | [] => false
  | _ => forallb isdigit s
  end.

(** [int(s)] on a string for which [s.isdigit()] holds (the only strings
    the code converts): the base-10 value when every character is a decimal
    digit, [None] (for [ValueError]) otherwise. *)
Fixpoint int_acc (s : str) (acc : N) : option N :=
  match s with
  | [] => Some acc
  | c :: tl =>
      match decimal_value c with
      | Some d => int_acc tl (acc * 10 + d)
      | None => None
      end
  end.

Definition int (s : str) : option Z :=
  match s with
  | [] => None
  | _ => option_map Z.of_N (int_acc s 0)
  end.

End Strings.

(* ================================================================== *)
(** * Ordered dictionaries *)
(* ================================================================== *)

(** A Python [dict] with string keys keeps its keys unique and in
    insertion order; [d[k] = v] replaces the value in place when [k] is
    already present and appends otherwise. *)
Definition dict (V : Type) := list (str * V).

Fixpoint dict_set {V} (d : dict V) (k : str) (v : V) : dict V :=
  match d with
  | [] => [(k, v)]
  | (k', v') :: rest =>
      if str_eqb k' k then (k, v) :: rest else (k', v') :: dict_set rest k v
  end.

Fixpoint dict_get {V} (d : dict V) (k : str) : option V :=
  match d with
  | [] => None
  | (k', v) :: rest => if str_eqb k' k then Some v else dict_get rest k
  end.

Definition keys {V} (d : dict V) : list str := map fst d.
Definition values {V} (d : dict V) : list V := map snd d.

(* ================================================================== *)
(** * The [re] module: backtracking matching *)
(* ================================================================== *)

Module Re.

(** The fragment of the pattern language the sources use.  A character
    class is a predicate on code points; [Bol] is [^] and [Eol] is [$]
    (no MULTILINE flag); quantifiers are the greedy ones. *)
Inductive regex :=
| Eps
| Chr (p : codepoint -> bool)
| Bol
| Eol
| Seq (r1 r2 : regex)
| Alt (r1 r2 : regex)
| Opt (r : regex)
| Star (r : regex)
| Group (n : nat) (r : regex).

Definition Plus (r : regex) : regex := Seq r (Star r).

Definition lit (c : codepoint) : regex := Chr (N.eqb c).

(** A literal string: its characters in sequence. *)
Fixpoint Lit (s : str) : regex :=
  match s with
  | [] => Eps
  | c :: tl => Seq (lit c) (Lit tl)
  end.

(** [.] without DOTALL: any character except a newline. *)
Definition dot : regex := Chr (fun c => negb (c =? NEWLINE)).

(** Group number to (start, end) positions in the text. *)
Definition captures := list (nat * (nat * nat)).

Fixpoint span (cs : captures) (n : nat) : option (nat * nat) :=
  match cs with
  | [] => None
  | (m, se) :: rest => if Nat.eqb m n then Some se else span rest n
  end.

(** The matcher's position: [pos] characters consumed, [rest] still to
    read, and the groups closed so far. *)
Record state := mk_state { pos : nat; rest : str; caps : captures }.

(** One greedy loop of [Star]: [step] matches the body once.  An
    iteration that consumes nothing is refused, so at most one iteration
    per remaining character can follow and [fuel], the number of remaining
    characters, never runs out before the text does. *)
Section StarLoop.
Variables (A : Type) (step : state -> (state -> option A) -> option A).
Variable k : state -> option A.

Fixpoint star_loop (fuel : nat) (s : state) : option A :=
  match fuel with
  | O => k s
  | S fuel' =>
      match step s (fun s' =>
              if Nat.ltb (length (rest s')) (length (rest s))
              then star_loop fuel' s' else None) with
      | Some m => Some m
      | None => k s
      end
  end.

End StarLoop.

(** [run r s k]: match [r] at [s] and hand the state reached to the
    continuation [k]; when [k] refuses, the next alternative is tried, in
    the priority order of a backtracking matcher (a greedy quantifier tries
    one more iteration before it tries to stop). *)
Fixpoint run (A : Type) (r : regex) (s : state) (k : state -> option A)
  : option A :=
  match r with
  | Eps => k s
  | Chr p =>
      match rest s with
      | c :: tl => if p c then k (mk_state (S (pos s)) tl (caps s)) else None
      | [] => None
      end
  | Bol => if Nat.eqb (pos s) 0 then k s else None
  | Eol =>
      match rest s with
      | [] => k s
      | [c] => if c =? NEWLINE then k s else None
      | _ => None
      end
  | Seq r1 r2 => run r1 s (fun s' => run r2 s' k)
  | Alt r1 r2 =>
      match run r1 s k with
      | Some m => Some m
      | None => run r2 s k
      end
  | Opt r1 =>
      match run r1 s k with
      | Some m => Some m
      | None => k s
      end
  | Star r1 => star_loop (run r1) k (length (rest s)) s
  | Group n r1 =>
      run r1 s (fun s' => k (mk_state (pos s') (rest s')
                               ((n, (pos s, pos s')) :: caps s')))
  end.

(** What it means for [r] to match from one state to another, whatever
    the order in which a matcher explores the alternatives. *)
Inductive Matches : regex -> state -> state -> Prop :=
| MEps s : Matches Eps s s
| MChr p c n tl cs :
    p c = true ->
    Matches (Chr p) (mk_state n (c :: tl) cs) (mk_state (S n) tl cs)
| MBol s : pos s = O -> Matches Bol s s
| MEol s : rest s = [] \/ rest s = [NEWLINE] -> Matches Eol s s
| MSeq r1 r2 s s' s'' :
    Matches r1 s s' -> Matches r2 s' s'' -> Matches (Seq r1 r2) s s''
| MAltL r1 r2 s s' : Matches r1 s s' -> Matches (Alt r1 r2) s s'
| MAltR r1 r2 s s' : Matches r2 s s' -> Matches (Alt r1 r2) s s'
| MOptSome r s s' : Matches r s s' -> Matches (Opt r) s s'
| MOptNone r s : Matches (Opt r) s s
| MStarNil r s : Matches (Star r) s s
| MStarCons r s s' s'' :
    Matches r s s' -> (length (rest s') < length (rest s))%nat ->
    Matches (Star r) s' s'' -> Matches (Star r) s s''
| MGroup n r s s' :
    Matches r s s' ->
    Matches (Group n r) s
            (mk_state (pos s') (rest s') ((n, (pos s, pos s')) :: caps s')).

(** Patterns without capture groups. *)
Fixpoint groupless (r : regex) : bool :=
  match r with
  | Eps | Chr _ | Bol | Eol => true
  | Seq r1 r2 | Alt r1 r2 => groupless r1 && groupless r2
  | Opt r1 | Star r1 => groupless r1
  | Group _ _ => false
  end.

(** A run of characters of the class [p] cannot be extended into [b]. *)
Definition stops (p : codepoint -> bool) (b : str) : Prop :=
  match b with
  | [] => True
  | c :: _ => p c = false
  end.

(** The order in which a greedy run over the characters [a] hands its
    stopping points to [k]: the longest first. *)
Fixpoint longest_first (A : Type) (k : state -> option A) (n : nat)
  (a b : str) (cs : captures) : option A :=
  match a with
  | [] => k (mk_state n b cs)
  | c :: a' =>
      match longest_first k (S n) a' b cs with
      | Some m => Some m
      | None => k (mk_state n (a ++ b) cs)
      end
  end.

(** [m.group(n)]; a group that took no part in the match reads as the
    empty string, as in the tuples of [findall]. *)
Definition group (text : str) (m : state) (n : nat) : str :=
  match span (caps m) n with
  | Some (a, b) => slice text a b
  | None => []
  end.

(** [pattern.match(text)]: a match starting at position 0. *)
Definition match_ (r : regex) (text : str) : option state :=
  run r (mk_state 0 text []) Some.

(** The scan of [findall]: the leftmost match from [p] on, then on from
    where it ended.  [fuel] bounds the number of start positions tried;
    the patterns here consume at least one character per match, and the
    scan moves one character on after an empty one. *)
Fixpoint scan (fuel : nat) (r : regex) (p : nat) (t : str) : list state :=
  match fuel with
  | O => []
  | S fuel' =>
      match run r (mk_state p t []) Some with
      | Some m =>
          m :: (if Nat.ltb p (pos m) then scan fuel' r (pos m) (rest m)
                else match t with
                     | [] => []
                     | _ :: tl => scan fuel' r (S p) tl
                     end)
      | None =>
          match t with
          | [] => []
          | _ :: tl => scan fuel' r (S p) tl
          end
      end
  end.

(** [re.findall(pattern, text)] for a pattern with two groups: the list
    of [(group 1, group 2)] tuples of the successive matches. *)
Definition findall (r : regex) (text : str) : list (str * str) :=
  map (fun m => (group text m 1, group text m 2))
      (scan (S (length text)) r 0 text).

End Re.

(* ================================================================== *)
(** * [slack_client.py] *)
(* ================================================================== *)

Module SlackKPIClient.
Import Re.

Record KPIMessage := {
  channel_id : str;
  channel_name : str;
  user_name : str;
  timestamp : datetime;
  text : str;
  kpi_values : dict str
}.

Record ChannelInfo := {
  id : str;
  name : str;
  is_private : bool
}.

(** A raw message dictionary: the keys [text] and [ts] may be missing.
    [ts] is kept as the instant that
    [datetime.fromtimestamp(float(message.get("ts", 0)))] denotes. *)
Record RawMessage := {
  raw_text : option str;
  raw_ts : option datetime
}.

(** What a cursor-paginated Web API call answers, page after page:
    [ApiError] is the call raising [SlackApiError]; [Page items next] a
    response whose [next_cursor] leads to [next]; [LastPage items] a
    response with no (or an empty) [next_cursor]. *)
Inductive pages (A : Type) :=
| ApiError
| LastPage (items : list A)
| Page (items : list A) (next : pages A).

Arguments ApiError {A}.

(** The [slack_sdk.WebClient] the client talks to: [conversations_list]
    by [include_private], [conversations_history] by channel id and
    requested page size. *)
Record WebClient := {
  conversations_list : bool -> pages ChannelInfo;
  conversations_history : str -> Z -> pages RawMessage
}.

(** [INDIVIDUAL_CHANNEL_PATTERN = re.compile(r"^個人_(.+)$")] *)
Definition INDIVIDUAL_PREFIX : str := Eval vm_compute in u "個人_".

Definition INDIVIDUAL_CHANNEL_PATTERN : regex :=
  Seq Bol (Seq (Lit INDIVIDUAL_PREFIX) (Seq (Group 1 (Plus dot)) Eol)).

Definition is_individual_channel (channel_name : str) : bool :=
  match match_ INDIVIDUAL_CHANNEL_PATTERN channel_name with
  | Some _ => true
  | None => false
  end.

Definition extract_person_name (channel_name : str) : option str :=
  match match_ INDIVIDUAL_CHANNEL_PATTERN channel_name with
  | Some m => Some (group channel_name m 1)
  | None => None
  end.

(** The loop of [get_all_channels]: every page is appended; an
    [ApiError] ends the listing with what was gathered. *)
Fixpoint list_pages (response : pages ChannelInfo) (channels : list ChannelInfo)
  : list ChannelInfo :=
  match response with
  | ApiError => channels
  | LastPage items => channels ++ items
  | Page items next => list_pages next (channels ++ items)
  end.

Definition get_all_channels (client : WebClient) (include_private : bool)
  : list ChannelInfo :=
  list_pages (conversations_list client include_private) [].

Definition get_individual_channels (client : WebClient) : list ChannelInfo :=
  filter (fun channel => is_individual_channel (name channel))
         (get_all_channels client true).

(** The loop of [get_channel_messages]: while [fetched < limit] a page is
    requested and its messages are taken up to the limit; an [ApiError]
    returns the messages gathered so far. *)
Fixpoint fetch_pages (limit fetched : Z) (response : pages RawMessage)
  (messages : list RawMessage) : list RawMessage :=
  if (fetched <? limit)%Z then
    match response with
    | ApiError => messages
    | LastPage items =>
        messages ++ firstn (Z.to_nat (limit - fetched)) items
    | Page items next =>
        let taken := firstn (Z.to_nat (limit - fetched)) items in
        fetch_pages limit (fetched + Z.of_nat (length taken)) next
                    (messages ++ taken)
    end
  else messages.

Definition get_channel_messages (client : WebClient) (channel_id : str)
  (limit : Z) : list RawMessage :=
  fetch_pages limit 0
    (conversations_history client channel_id (Z.min limit 200)) [].

Section Extraction.
Context {R : PyRuntime}.

(** [\d+(?:\.\d+)?(?:%|件|円|人|回)?] *)
Definition digit : regex := Chr isdecimal.

Definition unit_suffix : regex :=
  Alt (lit (chr "%")) (Alt (lit (chr "件")) (Alt (lit (chr "円"))
      (Alt (lit (chr "人")) (lit (chr "回"))))).

Definition number : regex :=
  Seq (Plus digit)
      (Seq (Opt (Seq (lit (chr ".")) (Plus digit))) (Opt unit_suffix)).

(** [[^\s:：]] and [[:\s：]] *)
Definition label_char (c : codepoint) : bool :=
  negb (isspace c || (c =? chr ":") || (c =? chr "：")).

Definition separator_char (c : codepoint) : bool :=
  (c =? chr ":") || isspace c || (c =? chr "：").

(** Pattern 1: [([^\s:：]+)[:\s：]+(number)] *)
Definition pattern1 : regex :=
  Seq (Group 1 (Plus (Chr label_char)))
      (Seq (Plus (Chr separator_char)) (Group 2 number)).

(** Pattern 2: [【([^】]+)】\s*(number)] *)
Definition pattern2 : regex :=
  Seq (lit (chr "【"))
      (Seq (Group 1 (Plus (Chr (fun c => negb (c =? chr "】")))))
           (Seq (lit (chr "】"))
                (Seq (Star (Chr isspace)) (Group 2 number)))).

(** Pattern 3: [(売上|契約|アポ|架電|面談|成約)[数件率]?\s*[:\s：]*(number)] *)
Definition keyword : regex :=
  Alt (Lit (u "売上")) (Alt (Lit (u "契約")) (Alt (Lit (u "アポ"))
      (Alt (Lit (u "架電")) (Alt (Lit (u "面談")) (Lit (u "成約")))))).

Definition pattern3 : regex :=
  Seq (Group 1 keyword)
      (Seq (Opt (Chr (fun c => (c =? chr "数") || (c =? chr "件")
                               || (c =? chr "率"))))
           (Seq (Star (Chr isspace))
                (Seq (Star (Chr separator_char)) (Group 2 number)))).

Definition patterns : list regex := [pattern1; pattern2; pattern3].

(** The inner loop of [_extract_kpi_values]: every match of one pattern
    stores [key.strip()] -> [value.strip()]. *)
Definition store_matches (kpi_values : dict str) (matches : list (str * str))
  : dict str :=
  fold_left (fun d m => dict_set d (strip (fst m)) (strip (snd m)))
            matches kpi_values.

Definition _extract_kpi_values (text : str) : dict str :=
  fold_left (fun d pattern => store_matches d (findall pattern text))
            patterns [].

(** [x or y] on an optional string: [None] and the empty string are
    falsy. *)
Definition or_else (x : option str) (y : str) : str :=
  match x with
  | Some ((_ :: _) as s) => s
  | _ => y
  end.

(** [message.get("text", "")] *)
Definition message_text (message : RawMessage) : str :=
  match raw_text message with Some t => t | None => [] end.

Definition parse_kpi_message (message : RawMessage) (channel_info : ChannelInfo)
  : option KPIMessage :=
  let text := message_text message in
  let kpi_values := _extract_kpi_values text in
  match kpi_values, strip text with
  | [], [] => None
  | _, _ =>
      let timestamp := match raw_ts message with Some t => t | None => 0%Z end in
      let person_name :=
        or_else (extract_person_name (name channel_info)) (name channel_info) in
      Some {| channel_id := id channel_info;
              channel_name := name channel_info;
              user_name := person_name;
              timestamp := timestamp;
              text := text;
              kpi_values := kpi_values |}
  end.

(** The loop of [get_kpi_data_from_channel] over the fetched messages. *)
Fixpoint parse_messages (messages : list RawMessage) (channel_info : ChannelInfo)
  : list KPIMessage :=
  match messages with
  | [] => []
  | msg :: rest =>
      match parse_kpi_message msg channel_info with
      | Some kpi_msg => kpi_msg :: parse_messages rest channel_info
      | None => parse_messages rest channel_info
      end
  end.

Definition get_kpi_data_from_channel (client : WebClient)
  (channel_info : ChannelInfo) (limit : Z) : list KPIMessage :=
  parse_messages (get_channel_messages client (id channel_info) limit)
                 channel_info.

Definition get_all_individual_kpi_data (client : WebClient) (message_limit : Z)
  : dict (list KPIMessage) :=
  fold_left
    (fun all_kpi_data channel =>
       match extract_person_name (name channel) with
       | Some ((_ :: _) as person_name) =>
           dict_set all_kpi_data person_name
                    (get_kpi_data_from_channel client channel message_limit)
       | _ => all_kpi_data
       end)
    (get_individual_channels client) [].

End Extraction.

End SlackKPIClient.

(* ================================================================== *)
(** * [sheets_client.py] *)
(* ================================================================== *)

Definition table := list (list str).

(** Calls that change the spreadsheet thread its state. *)
Definition M (S A : Type) : Type := S -> A * S.

Definition ret {S A} (a : A) : M S A := fun s => (a, s).

Definition bind {S A B} (c : M S A) (k : A -> M S B) : M S B :=
  fun s => let (a, s') := c s in k a s'.

Declare Scope monad_scope.
Delimit Scope monad_scope with monad.
Notation "x <- c ;; k" := (bind c (fun x => k))
  (at level 61, c at next level, right associativity) : monad_scope.
Notation "c ;;; k" := (bind c (fun _ => k))
  (at level 61, right associativity) : monad_scope.

(** [for x in xs: acc = body(acc, x)] with effects. *)
Fixpoint for_each {S A B} (xs : list A) (body : B -> A -> M S B) (acc : B)
  : M S B :=
  match xs with
  | [] => ret acc
  | x :: rest => bind (body acc x) (for_each rest body)
  end.

Module GoogleSheetsClient.
Local Open Scope monad_scope.

Inductive add_sheet_result := Added | AlreadyExists | AddFailed.

(** The Sheets service behind [self.service], over a spreadsheet state
    [S].  A result [None] or [false] is the request raising [HttpError];
    [AlreadyExists] is the [HttpError] whose text says so. *)
Class SheetsService (S : Type) := {
  spreadsheets_get : M S (option (list str));
  add_sheet : str -> M S add_sheet_result;
  values_clear : str -> M S bool;
  values_update : str -> table -> M S bool;
  values_get : str -> M S (option table)
}.

Section Client.
Context {S : Type} {service : SheetsService S}.

Definition get_sheet_names : M S (list str) :=
  info <- spreadsheets_get ;;
  ret (match info with Some titles => titles | None => [] end).

Definition create_sheet (sheet_name : str) : M S bool :=
  r <- add_sheet sheet_name ;;
  ret (match r with Added | AlreadyExists => true | AddFailed => false end).

Definition clear_sheet (sheet_name : str) : M S bool :=
  values_clear sheet_name.

Definition write_data (sheet_name : str) (data : table) (clear_first : bool)
  : M S bool :=
  (if clear_first then clear_sheet sheet_name else ret true) ;;;
  values_update sheet_name data.

Definition read_data (sheet_name : str) : M S table :=
  r <- values_get sheet_name ;;
  ret (match r with Some rows => rows | None => [] end).

Definition ensure_sheet_exists (sheet_name : str) : M S bool :=
  existing_sheets <- get_sheet_names ;;
  if existsb (str_eqb sheet_name) existing_sheets then ret true
  else create_sheet sheet_name.

End Client.
End GoogleSheetsClient.

(* ================================================================== *)
(** * [kpi_sync.py] *)
(* ================================================================== *)

(** [sorted(xs)] under a total preorder [leb]: stable, so elements that
    compare equal keep their input order. *)
Fixpoint insert_sorted {A} (leb : A -> A -> bool) (x : A) (l : list A) : list A :=
  match l with
  | [] => [x]
  | y :: rest => if leb x y then x :: l else y :: insert_sorted leb x rest
  end.

Definition sorted {A} (leb : A -> A -> bool) (l : list A) : list A :=
  fold_right (insert_sorted leb) [] l.

(** The relation a boolean comparison decides. *)
Definition holds {A} (leb : A -> A -> bool) (x y : A) : Prop := leb x y = true.

Module KPISynchronizer.
Import SlackKPIClient GoogleSheetsClient.
Local Open Scope nat_scope.
Local Open Scope monad_scope.

Definition OVERVIEW_SHEET : str := Eval vm_compute in u "KPI概要".
Definition DETAIL_SHEET_PREFIX : str := Eval vm_compute in u "詳細_".

Record Stats := {
  channels_processed : nat;
  messages_synced : nat;
  errors : nat
}.

Record Status := {
  last_sync : option str;
  channels_synced : nat;
  total_messages : Z
}.

Section Synchronizer.
Context {R : PyRuntime}.

Definition overview_headers : list str :=
  [u "氏名"; u "チャンネル名"; u "メッセージ数"; u "最新メッセージ日時";
   u "最新メッセージ内容"; u "同期日時"].

Definition detail_headers : list str :=
  [u "日時"; u "メッセージ内容"; u "抽出KPI"].

(** [max(messages, key=lambda m: m.timestamp)] below the first element:
    a later message replaces the best one only when strictly newer. *)
Fixpoint max_by_timestamp (best : KPIMessage) (messages : list KPIMessage)
  : KPIMessage :=
  match messages with
  | [] => best
  | m :: rest =>
      if (timestamp best <? timestamp m)%Z then max_by_timestamp m rest
      else max_by_timestamp best rest
  end.

(** [sorted(kpi_data.items())]: the keys of a dict are distinct, so the
    tuple comparison is decided by the person name. *)
Definition sorted_items (kpi_data : dict (list KPIMessage))
  : list (str * list KPIMessage) :=
  sorted (fun a b => str_leb (fst a) (fst b)) kpi_data.

Definition overview_row (sync_time : str) (item : str * list KPIMessage)
  : list str :=
  let (person_name, messages) := item in
  let (latest_time, latest_text) :=
    match messages with
    | first :: others =>
        let latest_msg := max_by_timestamp first others in
        (strftime (timestamp latest_msg),
         if Nat.ltb 200 (length (text latest_msg))
         then firstn 200 (text latest_msg) ++ u "..."
         else text latest_msg)
    | [] => (u "-", u "-")
    end in
  [person_name; INDIVIDUAL_PREFIX ++ person_name;
   str_of_nat (length messages); latest_time; latest_text; sync_time].

(** [now] is what [datetime.now()] reads when the table is built. *)
Definition _prepare_overview_data (now : datetime)
  (kpi_data : dict (list KPIMessage)) : table :=
  let sync_time := strftime now in
  overview_headers :: map (overview_row sync_time) (sorted_items kpi_data).

Definition detail_row (msg : KPIMessage) : list str :=
  let kpi_str :=
    match kpi_values msg with
    | [] => u "-"
    | items => join (u ", ") (map (fun kv => fst kv ++ u ": " ++ snd kv) items)
    end in
  [strftime (timestamp msg); text msg; kpi_str].

(** [sorted(messages, key=lambda m: m.timestamp, reverse=True)] *)
Definition newest_first (messages : list KPIMessage) : list KPIMessage :=
  sorted (fun a b => (timestamp b <=? timestamp a)%Z) messages.

Definition _prepare_detail_data (person_name : str) (messages : list KPIMessage)
  : table :=
  detail_headers :: map detail_row (newest_first messages).

Section Sync.
Context {S : Type} {service : SheetsService S}.
Variable slack_client : WebClient.

Definition write_detail_sheet (stats : Stats)
  (item : str * list KPIMessage) : M S Stats :=
  let (person_name, messages) := item in
  match messages with
  | [] => ret stats
  | _ =>
      let detail_sheet_name := DETAIL_SHEET_PREFIX ++ person_name in
      let detail_data := _prepare_detail_data person_name messages in
      ensure_sheet_exists detail_sheet_name ;;;
      ok <- write_data detail_sheet_name detail_data true ;;
      ret (if ok : bool
           then {| channels_processed := channels_processed stats;
                   messages_synced := messages_synced stats + length messages;
                   errors := errors stats |}
           else {| channels_processed := channels_processed stats;
                   messages_synced := messages_synced stats;
                   errors := errors stats + 1 |})
  end.

Definition sync_all_individual_kpi (now : datetime) (message_limit : Z)
  (create_detail_sheets : bool) : M S Stats :=
  let stats := {| channels_processed := 0; messages_synced := 0; errors := 0 |} in
  let all_kpi_data := get_all_individual_kpi_data slack_client message_limit in
  match all_kpi_data with
  | [] => ret stats
  | _ =>
      let overview_data := _prepare_overview_data now all_kpi_data in
      ensure_sheet_exists OVERVIEW_SHEET ;;;
      ok <- write_data OVERVIEW_SHEET overview_data true ;;
      let stats :=
        if ok : bool
        then {| channels_processed := length all_kpi_data;
                messages_synced := 0; errors := 0 |}
        else stats in
      if create_detail_sheets
      then for_each all_kpi_data write_detail_sheet stats
      else ret stats
  end.

(** [channel_map = {ch.name: ch for ch in all_channels}] *)
Definition channel_map_of (all_channels : list ChannelInfo) : dict ChannelInfo :=
  fold_left (fun d ch => dict_set d (name ch) ch) all_channels [].

(** The first loop of [sync_specific_channels]: the records gathered per
    person and the counters. *)
Definition gather_channel (channel_map : dict ChannelInfo) (message_limit : Z)
  (acc : dict (list KPIMessage) * Stats) (name : str)
  : dict (list KPIMessage) * Stats :=
  let (kpi_data, stats) := acc in
  match dict_get channel_map name with
  | Some channel =>
      let messages := get_kpi_data_from_channel slack_client channel message_limit in
      let person_name := or_else (extract_person_name name) name in
      (dict_set kpi_data person_name messages,
       {| channels_processed := channels_processed stats + 1;
          messages_synced := messages_synced stats;
          errors := errors stats |})
  | None =>
      (kpi_data,
       {| channels_processed := channels_processed stats;
          messages_synced := messages_synced stats;
          errors := errors stats + 1 |})
  end.

Definition gather_channels (channel_names : list str) (message_limit : Z)
  : dict (list KPIMessage) * Stats :=
  let all_channels := get_all_channels slack_client true in
  let channel_map := channel_map_of all_channels in
  fold_left (gather_channel channel_map message_limit) channel_names
    ([], {| channels_processed := 0; messages_synced := 0; errors := 0 |}).

Definition sync_specific_channels (now : datetime) (channel_names : list str)
  (message_limit : Z) : M S Stats :=
  let (kpi_data, stats) := gather_channels channel_names message_limit in
  match kpi_data with
  | [] => ret stats
  | _ =>
      let overview_data := _prepare_overview_data now kpi_data in
      ensure_sheet_exists OVERVIEW_SHEET ;;;
      write_data OVERVIEW_SHEET overview_data true ;;;
      ret {| channels_processed := channels_processed stats;
             messages_synced :=
               fold_left (fun n item => n + length (snd item)) kpi_data
                         (messages_synced stats);
             errors := errors stats |}
  end.

Definition list_available_channels : list ChannelInfo :=
  get_individual_channels slack_client.

(** The generator summed in [get_sync_status]: [int(row[2])] for the rows
    with [len(row) > 2 and row[2].isdigit()]; [None] when an [int] call
    raises. *)
Fixpoint sum_message_counts (rows : table) : option Z :=
  match rows with
  | [] => Some 0%Z
  | row :: rest =>
      match nth_error row 2 with
      | Some cell =>
          if str_isdigit cell then
            match int cell with
            | Some n =>
                match sum_message_counts rest with
                | Some total => Some (n + total)%Z
                | None => None
                end
            | None => None
            end
          else sum_message_counts rest
      | None => sum_message_counts rest
      end
  end.

(** The body of the [try] in [get_sync_status] on the rows read; the
    assignments made before an exception is caught are kept. *)
Definition status_of (data : table) : Status :=
  let status := {| last_sync := None; channels_synced := 0; total_messages := 0 |} in
  match data with
  | _ :: first_row :: _ =>
      let status :=
        {| last_sync := last_sync status;
           channels_synced := length data - 1;
           total_messages := total_messages status |} in
      let status :=
        if Nat.leb 6 (length first_row)
        then {| last_sync := nth_error first_row 5;
                channels_synced := channels_synced status;
                total_messages := total_messages status |}
        else status in
      match sum_message_counts (tl data) with
      | Some total =>
          {| last_sync := last_sync status;
             channels_synced := channels_synced status;
             total_messages := total |}
      | None => status
      end
  | _ => status
  end.

Definition get_sync_status : M S Status :=
  data <- read_data OVERVIEW_SHEET ;;
  ret (status_of data).

End Sync.

(** What a row adds to the total when its conversion succeeds, and the
    rows whose count cell [int] can convert whenever [isdigit] accepts
    it. *)
Definition row_count (row : list str) : Z :=
  match nth_error row 2 with
  | Some cell =>
      if str_isdigit cell
      then match int cell with Some n => n | None => 0%Z end
      else 0%Z
  | None => 0%Z
  end.

Definition convertible (row : list str) : Prop :=
  forall cell, nth_error row 2 = Some cell -> str_isdigit cell = true ->
               int cell <> None.
End Synchronizer.
End KPISynchronizer.

(* ================================================================== *)
(** * A concrete runtime and concrete backends *)
(* ================================================================== *)

Module Samples.
Import SlackKPIClient GoogleSheetsClient KPISynchronizer.

(** CPython's whitespace table in full. *)
Definition cpython_isspace (c : codepoint) : bool :=
  ((0x09 <=? c) && (c <=? 0x0D)) || ((0x1C <=? c) && (c <=? 0x20))
  || (c =? 0x85) || (c =? 0xA0) || (c =? 0x1680)
  || ((0x2000 <=? c) && (c <=? 0x200A))
  || (c =? 0x2028) || (c =? 0x2029) || (c =? 0x202F) || (c =? 0x205F)
  || (c =? 0x3000).

(** Decimal digits: the ASCII, Arabic-Indic and full-width blocks of
    category Nd (the other Nd blocks are left out of this table). *)
Definition cpython_decimal_value (c : codepoint) : option N :=
  if (0x30 <=? c) && (c <=? 0x39) then Some (c - 0x30)
  else if (0x660 <=? c) && (c <=? 0x669) then Some (c - 0x660)
  else if (0xFF10 <=? c) && (c <=? 0xFF19) then Some (c - 0xFF10)
  else None.

(** [str.isdigit] also holds of digits that are not decimal, such as the
    superscripts U+00B2, U+00B3 and U+00B9. *)
Definition cpython_isdigit (c : codepoint) : bool :=
  match cpython_decimal_value c with
  | Some _ => true
  | None => (c =? 0xB2) || (c =? 0xB3) || (c =? 0xB9)
  end.

(** [%Y-%m-%d %H:%M:%S] of an instant in microseconds since the epoch,
    for a process whose local time zone is UTC. *)
Definition pad (width : nat) (n : Z) : str :=
  let digits := str_of_N (Z.to_N n) in
  repeat 48 (width - length digits) ++ digits.

Definition utc_strftime (t : datetime) : str :=
  let secs := (t / 1000000)%Z in
  let days := (secs / 86400)%Z in
  let sod := (secs mod 86400)%Z in
  let z := (days + 719468)%Z in
  let era := (z / 146097)%Z in
  let doe := (z - era * 146097)%Z in
  let yoe := ((doe - doe / 1460 + doe / 36524 - doe / 146096) / 365)%Z in
  let doy := (doe - (365 * yoe + yoe / 4 - yoe / 100))%Z in
  let mp := ((5 * doy + 2) / 153)%Z in
  let d := (doy - (153 * mp + 2) / 5 + 1)%Z in
  let m := (if mp <? 10 then mp + 3 else mp - 9)%Z in
  let y := (yoe + era * 400 + (if m <=? 2 then 1 else 0))%Z in
  pad 4 y ++ u "-" ++ pad 2 m ++ u "-" ++ pad 2 d ++ u " "
  ++ pad 2 (sod / 3600) ++ u ":" ++ pad 2 (sod mod 3600 / 60) ++ u ":"
  ++ pad 2 (sod mod 60).

#[export] Instance cpython : PyRuntime := {|
  isspace := cpython_isspace;
  decimal_value := cpython_decimal_value;
  isdigit := cpython_isdigit;
  strftime := utc_strftime
|}.

(** An in-memory spreadsheet for the examples: sheet title to rows.  Every
    request succeeds except the updates of the sheets listed in
    [read_only]; an update creates the sheet when it is missing. *)
Definition Spreadsheet := dict table.

Definition has_sheet (s : Spreadsheet) (title : str) : bool :=
  existsb (str_eqb title) (keys s).

Definition memory_service (read_only : list str) : SheetsService Spreadsheet := {|
  spreadsheets_get := fun s => (Some (keys s), s);
  add_sheet := fun title s =>
    if has_sheet s title then (AlreadyExists, s)
    else (Added, dict_set s title []);
  values_clear := fun title s =>
    if has_sheet s title then (true, dict_set s title []) else (false, s);
  values_update := fun title rows s =>
    if existsb (str_eqb title) read_only then (false, s)
    else (true, dict_set s title rows);
  values_get := fun title s => (dict_get s title, s)
|}.

Definition message (t : str) (ts : Z) : RawMessage :=
  {| raw_text := Some t; raw_ts := Some ts |}.

Definition channel (i n : str) : ChannelInfo :=
  {| id := i; name := n; is_private := false |}.

(** Three individual channels; the history of the second one fails. *)
Definition channel_A := channel (u "C01") (u "個人_佐藤").
Definition channel_B := channel (u "C02") (u "個人_田中").
Definition channel_C := channel (u "C03") (u "個人_鈴木").

Definition workspace : WebClient := {|
  conversations_list := fun _ =>
    LastPage [channel_A; channel (u "C00") (u "general"); channel_B; channel_C];
  conversations_history := fun channel_id _ =>
    if str_eqb channel_id (u "C01")
    then LastPage [message (u "売上: 150万円") 1700000000000000%Z;
                   message (u "  ") 1700000100000000%Z]
    else if str_eqb channel_id (u "C03")
    then LastPage [message (u "架電50件") 1700000200000000%Z]
    else ApiError
|}.

Definition sync_instant : datetime := 1700003600000000%Z.

(** The persons of the ordering example, none with a record. *)
Definition three_persons : dict (list KPIMessage) :=
  [(u "田中", []); (u "鈴木", []); (u "佐藤", [])].

Definition blank_message : RawMessage := message (u "  ") 1700000100000000%Z.

(** An overview sheet read back with a malformed count cell, and one whose
    second count cell is the superscript digit U+00B2. *)
Definition status_row (person count : str) : list str :=
  [person; INDIVIDUAL_PREFIX ++ person; count; u "-"; u "-";
   u "2023-11-14 23:13:20"].

Definition malformed_sheet : table :=
  [overview_headers; status_row (u "佐藤") (u "5"); status_row (u "田中") (u "x")].

Definition superscript_sheet : table :=
  [overview_headers; status_row (u "佐藤") (u "5"); status_row (u "田中") (u "²")].

End Samples.


(* ================================================================== *)
(** * [main.py] *)
(* ================================================================== *)

Module Main.
Import SlackKPIClient GoogleSheetsClient KPISynchronizer.
Local Open Scope monad_scope.

Section Commands.
Context {R : PyRuntime} {S : Type} {service : SheetsService S}.
Variable slack_client : WebClient.

(** [cmd_sync]: the exit code is [0 if stats["errors"] == 0 else 1]. *)
Definition cmd_sync (now : datetime) (limit : Z) (no_details : bool) : M S Z :=
  stats <- sync_all_individual_kpi slack_client now limit (negb no_details) ;;
  ret (if Nat.eqb (errors stats) 0 then 0%Z else 1%Z).

End Commands.
End Main.

(* ================================================================== *)
(** * Notions used to state properties *)
(* ================================================================== *)

Module Notions.
Import Re SlackKPIClient GoogleSheetsClient KPISynchronizer.

(** The items a paginated call delivers before it fails, in order. *)
Fixpoint delivered {A} (p : pages A) : list A :=
  match p with
  | ApiError => []
  | LastPage items => items
  | Page items next => items ++ delivered next
  end.

(** The number of records of a record mapping. *)
Definition total_records (d : dict (list KPIMessage)) : nat :=
  fold_right (fun item n => (length (snd item) + n)%nat) O d.

(** The persons of a record mapping with at least one record. *)
Definition with_records (d : dict (list KPIMessage)) : dict (list KPIMessage) :=
  filter (fun item => match snd item with [] => false | _ => true end) d.

(** Every record of a record mapping is stored under its own person. *)
Definition grouped (d : dict (list KPIMessage)) : Prop :=
  forall p recs r, In (p, recs) d -> In r recs -> user_name r = p.

(** The business terms of pattern 3. *)
Definition KEYWORDS : list str :=
  [u "売上"; u "契約"; u "アポ"; u "架電"; u "面談"; u "成約"].

Definition UNITS : list codepoint :=
  [chr "%"; chr "件"; chr "円"; chr "人"; chr "回"].

(** The text of the latest message as the overview shows it. *)
Definition shown_text (t : str) : str :=
  if Nat.ltb 200 (length t) then firstn 200 t ++ u "..." else t.

Section WithRuntime.
Context {R : PyRuntime}.

(** Digits, an optional fraction, an optional unit. *)
Definition number_shaped (v : str) : Prop :=
  exists ds frac unit,
    v = ds ++ frac ++ unit
    /\ ds <> [] /\ Forall (fun c => isdecimal c = true) ds
    /\ (frac = [] \/
        exists fs, frac = chr "." :: fs /\ fs <> []
                   /\ Forall (fun c => isdecimal c = true) fs)
    /\ (unit = [] \/ exists c, unit = [c] /\ In c UNITS).

(** Patterns that end with the value group, [(number)] as group 2. *)
Fixpoint ends_with_value (r : regex) : Prop :=
  match r with
  | Seq _ r2 => ends_with_value r2
  | Group 2 r' => r' = number
  | _ => False
  end.

(** Neither a decimal digit nor a unit character is whitespace. *)
Definition values_not_blank : Prop :=
  (forall c, isdecimal c = true -> isspace c = false)
  /\ (forall c, In c UNITS -> isspace c = false).

(** The value of the last of [matches] whose stripped label is [key]. *)
Definition last_value (matches : list (str * str)) (key : str) : option str :=
  fold_left (fun found m =>
               if str_eqb (strip (fst m)) key then Some (strip (snd m))
               else found)
            matches None.

(** The runtime knows the ASCII digits: [decimal_value] gives their value
    and [isdigit] accepts them. *)
Definition ascii_digits_known : Prop :=
  forall d, d < 10 ->
    decimal_value (48 + d) = Some d /\ isdigit (48 + d) = true.

End WithRuntime.
End Notions.

(** More concrete inputs: the record of the first message of channel A,
    and a workspace without any individual channel. *)
Module MoreSamples.
Import SlackKPIClient Samples.

Definition record_A : KPIMessage :=
  {| channel_id := u "C01";
     channel_name := u "個人_佐藤";
     user_name := u "佐藤";
     timestamp := 1700000000000000%Z;
     text := u "売上: 150万円";
     kpi_values := [(u "売上", u "150")] |}.

Definition quiet_workspace : WebClient := {|
  conversations_list := fun _ =>
    Page [channel (u "C00") (u "general")] (LastPage [channel (u "C09") (u "random")]);
  conversations_history := fun _ _ => ApiError
|}.

(** A workspace whose channel "general" does not follow the naming
    convention and holds one report. *)
Definition general_channel : ChannelInfo := channel (u "C00") (u "general").

Definition general_report : RawMessage :=
  message (u "契約: 3件") 1700000300000000%Z.

Definition team_workspace : WebClient := {|
  conversations_list := fun _ => LastPage [general_channel; channel_A];
  conversations_history := fun channel_id _ =>
    if str_eqb channel_id (u "C00") then LastPage [general_report]
    else ApiError
|}.

End MoreSamples.

Unset Implicit Arguments.
Local Close Scope N_scope.
Import Re SlackKPIClient GoogleSheetsClient KPISynchronizer Samples.

(* ================================================================== *)
(** * The matcher *)
(* ================================================================== *)

Section RunSound.
Variable A : Type.

Lemma star_loop_sound (step : state -> (state -> option A) -> option A)
  (r : regex) (k : state -> option A) :
  (forall s k' res, step s k' = Some res ->
     exists s', Matches r s s' /\ k' s' = Some res) ->
  forall fuel s res, star_loop step k fuel s = Some res ->
    exists s', Matches (Star r) s s' /\ k s' = Some res.
Proof.
  intros Hstep fuel. induction fuel as [|fuel IH]; intros s res H; simpl in H.
  - exists s. split; [apply MStarNil | exact H].
  - destruct (step s _) as [m|] eqn:E.
    + injection H as ->. apply Hstep in E. destruct E as (s' & Hm & Hk).
      destruct (Nat.ltb_spec (length (rest s')) (length (rest s))) as [Hlt|]; [|discriminate].
      apply IH in Hk. destruct Hk as (s'' & Hm' & Hk).
      exists s''. split; [eapply MStarCons; eauto | exact Hk].
    + exists s. split; [apply MStarNil | exact H].
Qed.

End RunSound.

Lemma run_sound : forall (r : regex) (A : Type) (s : state) (k : state -> option A) res,
  run r s k = Some res -> exists s', Matches r s s' /\ k s' = Some res.
Proof.
  induction r; intros A s k res H; simpl in H.
  - exists s. split; [constructor | exact H].
  - destruct s as [n t cs]; simpl in H. destruct t as [|c tl]; [discriminate|].
    destruct (p c) eqn:Hp; [|discriminate].
    eexists. split; [constructor; exact Hp | exact H].
  - destruct (Nat.eqb_spec (pos s) 0); [|discriminate].
    exists s. split; [constructor; assumption | exact H].
  - destruct (rest s) as [|c [|c' tl]] eqn:Hr; try discriminate.
    + exists s. split; [constructor; left; exact Hr | exact H].
    + destruct (N.eqb_spec c NEWLINE); [|discriminate]. subst c.
      exists s. split; [constructor; right; exact Hr | exact H].
  - apply IHr1 in H. destruct H as (s' & H1 & H).
    apply IHr2 in H. destruct H as (s'' & H2 & H).
    exists s''. split; [econstructor; eauto | exact H].
  - destruct (run r1 s k) eqn:E.
    + injection H as ->. apply IHr1 in E. destruct E as (s' & H1 & H).
      exists s'. split; [apply MAltL; exact H1 | exact H].
    + apply IHr2 in H. destruct H as (s' & H1 & H).
      exists s'. split; [apply MAltR; exact H1 | exact H].
  - destruct (run r s k) eqn:E.
    + injection H as ->. apply IHr in E. destruct E as (s' & H1 & H).
      exists s'. split; [apply MOptSome; exact H1 | exact H].
    + exists s. split; [apply MOptNone | exact H].
  - eapply star_loop_sound; [|exact H]. intros; eapply IHr; eauto.
  - apply IHr in H. destruct H as (s' & H1 & H).
    eexists. split; [apply MGroup; exact H1 | exact H].
Qed.

(** ** What a match consumes *)

Lemma Matches_consumes r s s' :
  Matches r s s' ->
  exists a, rest s = a ++ rest s' /\ pos s' = pos s + length a.
Proof.
  induction 1; simpl;
    try (exists []; split; [reflexivity | simpl; lia]);
    try assumption.
  - eexists [_]. split; [reflexivity | simpl; lia].
  - destruct IHMatches1 as (a1 & E1 & P1), IHMatches2 as (a2 & E2 & P2).
    exists (a1 ++ a2). rewrite E1, E2, P2, P1, length_app, <- app_assoc.
    split; [reflexivity | lia].
  - destruct IHMatches1 as (a1 & E1 & P1), IHMatches2 as (a2 & E2 & P2).
    exists (a1 ++ a2). rewrite E1, E2, P2, P1, length_app, <- app_assoc.
    split; [reflexivity | lia].
Qed.

Lemma Matches_groupless r s s' :
  Matches r s s' -> groupless r = true -> caps s' = caps s.
Proof.
  induction 1; simpl; intros G; try reflexivity;
    try (apply andb_prop in G; destruct G as [G1 G2]); auto; try discriminate.
  - rewrite IHMatches2, IHMatches1; auto.
  - rewrite IHMatches2, IHMatches1; auto.
Qed.

Lemma Matches_chr p s s' :
  Matches (Chr p) s s' ->
  exists c, p c = true /\ rest s = c :: rest s' /\ pos s' = S (pos s)
            /\ caps s' = caps s.
Proof.
  inversion 1; subst; simpl. exists c. auto.
Qed.

Lemma Matches_star_chr p s s' :
  Matches (Star (Chr p)) s s' ->
  exists a, rest s = a ++ rest s' /\ Forall (fun c => p c = true) a
            /\ pos s' = pos s + length a /\ caps s' = caps s.
Proof.
  intros H. remember (Star (Chr p)) as r eqn:Er.
  induction H; try discriminate; injection Er as ->.
  - exists []. simpl. repeat split; auto.
  - destruct (IHMatches2 eq_refl) as (a & E & F & P & C).
    apply Matches_chr in H. destruct H as (c & Hc & E' & P' & C').
    exists (c :: a). rewrite E', E, P, P', C, C'. simpl.
    repeat split; auto; lia.
Qed.

Lemma Matches_plus_chr p s s' :
  Matches (Plus (Chr p)) s s' ->
  exists a, a <> [] /\ rest s = a ++ rest s'
            /\ Forall (fun c => p c = true) a
            /\ pos s' = pos s + length a /\ caps s' = caps s.
Proof.
  unfold Plus. inversion 1; subst.
  match goal with H : Matches (Chr p) _ _ |- _ =>
    apply Matches_chr in H; destruct H as (c & Hc & E' & P' & C') end.
  match goal with H : Matches (Star _) _ _ |- _ =>
    apply Matches_star_chr in H; destruct H as (a & E & F & P & C) end.
  exists (c :: a). rewrite E', E, P, P', C, C'. simpl.
  repeat split; auto; try discriminate; lia.
Qed.

(** ** The equations of [run] *)

Lemma run_seq (A : Type) r1 r2 s (k : state -> option A) :
  run (Seq r1 r2) s k = run r1 s (fun s' => run r2 s' k).
Proof. reflexivity. Qed.

Lemma run_chr_cons (A : Type) p n c tl cs (k : state -> option A) :
  run (Chr p) (mk_state n (c :: tl) cs) k
  = if p c then k (mk_state (S n) tl cs) else None.
Proof. reflexivity. Qed.

Lemma run_chr_nil (A : Type) p n cs (k : state -> option A) :
  run (Chr p) (mk_state n [] cs) k = None.
Proof. reflexivity. Qed.

Lemma run_star (A : Type) r s (k : state -> option A) :
  run (Star r) s k = star_loop (run r) k (length (rest s)) s.
Proof. reflexivity. Qed.

Lemma run_group (A : Type) g r s (k : state -> option A) :
  run (Group g r) s k
  = run r s (fun s' => k (mk_state (pos s') (rest s')
                            ((g, (pos s, pos s')) :: caps s'))).
Proof. reflexivity. Qed.

Lemma run_opt (A : Type) r s (k : state -> option A) :
  run (Opt r) s k
  = match run r s k with Some m => Some m | None => k s end.
Proof. reflexivity. Qed.

Lemma run_alt (A : Type) r1 r2 s (k : state -> option A) :
  run (Alt r1 r2) s k
  = match run r1 s k with Some m => Some m | None => run r2 s k end.
Proof. reflexivity. Qed.

(** ** Greedy runs over a character class *)

Lemma star_chr_greedy (A : Type) p (k : state -> option A) cs b :
  stops p b ->
  forall a fuel n,
    Forall (fun c => p c = true) a -> length a <= fuel ->
    star_loop (run (Chr p)) k fuel (mk_state n (a ++ b) cs)
    = longest_first k n a b cs.
Proof.
  intros Hb. induction a as [|c a IH]; intros fuel n Ha Hf.
  - destruct fuel; [reflexivity|]. cbn [star_loop longest_first app].
    destruct b as [|c b]; [reflexivity|]. simpl in Hb.
    rewrite run_chr_cons, Hb. reflexivity.
  - destruct fuel as [|fuel]; [simpl in Hf; lia|].
    cbn [star_loop longest_first app].
    inversion Ha as [|? ? Hc Ha']; subst. rewrite run_chr_cons, Hc.
    cbn [rest length].
    replace (length (a ++ b) <? S (length (a ++ b)))%nat with true
      by (symmetry; apply Nat.ltb_lt; lia).
    rewrite IH by (auto; simpl in Hf; lia). reflexivity.
Qed.

Lemma longest_first_full (A : Type) (k : state -> option A) cs b res :
  forall a n,
    k (mk_state (n + length a) b cs) = Some res ->
    longest_first k n a b cs = Some res.
Proof.
  induction a as [|c a IH]; intros n H; simpl in *.
  - rewrite Nat.add_0_r in H. exact H.
  - rewrite IH; [reflexivity|]. rewrite <- H. f_equal. f_equal. lia.
Qed.

(** A greedy [p+] over a maximal run [a] whose continuation accepts the
    whole run. *)
Lemma run_plus_chr_full (A : Type) p (k : state -> option A) n a b cs res :
  a <> [] -> Forall (fun c => p c = true) a -> stops p b ->
  k (mk_state (n + length a) b cs) = Some res ->
  run (Plus (Chr p)) (mk_state n (a ++ b) cs) k = Some res.
Proof.
  intros Ha F Hb Hk. destruct a as [|c a]; [congruence|].
  inversion F as [|? ? Hc F']; subst.
  unfold Plus. rewrite run_seq. cbn [app]. rewrite run_chr_cons, Hc, run_star.
  cbn [rest]. rewrite star_chr_greedy by (auto; rewrite length_app; lia).
  apply longest_first_full. rewrite <- Hk. f_equal. f_equal. simpl. lia.
Qed.

Lemma run_star_chr_full (A : Type) p (k : state -> option A) n a b cs res :
  Forall (fun c => p c = true) a -> stops p b ->
  k (mk_state (n + length a) b cs) = Some res ->
  run (Star (Chr p)) (mk_state n (a ++ b) cs) k = Some res.
Proof.
  intros F Hb Hk. rewrite run_star. cbn [rest].
  rewrite star_chr_greedy by (auto; rewrite length_app; lia).
  apply longest_first_full. exact Hk.
Qed.

(** ** Slices *)

Lemma slice_app (pre a post : str) :
  slice (pre ++ a ++ post) (length pre) (length pre + length a) = a.
Proof.
  unfold slice. rewrite skipn_app, skipn_all, Nat.sub_diag. simpl.
  replace (length pre + length a - length pre) with (length a) by lia.
  rewrite firstn_app, firstn_all, Nat.sub_diag. simpl. apply app_nil_r.
Qed.

Lemma slice_substring t a b : substring (slice t a b) t.
Proof.
  unfold slice, substring.
  exists (firstn a t), (skipn (b - a) (skipn a t)).
  rewrite firstn_skipn, firstn_skipn. reflexivity.
Qed.

(** ** The scan of [findall] *)

Lemma scan_sound r text :
  forall fuel p t pre m,
    text = pre ++ t -> length pre = p ->
    In m (scan fuel r p t) ->
    exists pre0 t0,
      text = pre0 ++ t0 /\
      run r (mk_state (length pre0) t0 []) Some = Some m.
Proof.
  induction fuel as [|fuel IH]; intros p t pre m Ht Hp Hin; simpl in Hin;
    [contradiction|].
  assert (Hstep : forall c tl, t = c :: tl -> In m (scan fuel r (S p) tl) ->
            exists pre0 t0, text = pre0 ++ t0 /\
              run r (mk_state (length pre0) t0 []) Some = Some m).
  { intros c tl -> Hm. apply (IH (S p) tl (pre ++ [c])); auto.
    - rewrite <- app_assoc. exact Ht.
    - rewrite length_app. simpl. lia. }
  destruct (run r (mk_state p t []) Some) as [m0|] eqn:E.
  - destruct Hin as [<- | Hin].
    + exists pre, t. subst p. auto.
    + destruct (Nat.ltb_spec p (pos m0)).
      * apply run_sound in E. destruct E as (s' & Hm & Hs). injection Hs as <-.
        apply Matches_consumes in Hm. simpl in Hm.
        destruct Hm as (a & Ea & Pa).
        apply (IH (pos s') (rest s') (pre ++ a)); auto.
        -- rewrite <- app_assoc, <- Ea. exact Ht.
        -- rewrite length_app. lia.
      * destruct t as [|c tl]; [contradiction|]. eapply Hstep; eauto.
  - destruct t as [|c tl]; [contradiction|]. eapply Hstep; eauto.
Qed.

(** ** Inversion of [Matches] *)

Lemma Matches_seq_inv r1 r2 s s'' :
  Matches (Seq r1 r2) s s'' ->
  exists s', Matches r1 s s' /\ Matches r2 s' s''.
Proof. inversion 1; subst; eauto. Qed.

Lemma Matches_group_inv g r s s'' :
  Matches (Group g r) s s'' ->
  exists s', Matches r s s'
             /\ s'' = mk_state (pos s') (rest s') ((g, (pos s, pos s')) :: caps s').
Proof. inversion 1; subst; eauto. Qed.

Lemma Matches_bol_inv s s' : Matches Bol s s' -> s' = s /\ pos s = 0.
Proof. inversion 1; subst; auto. Qed.

Lemma Matches_eol_inv s s' :
  Matches Eol s s' -> s' = s /\ (rest s = [] \/ rest s = [NEWLINE]).
Proof. inversion 1; subst; auto. Qed.

(** ** Fuel is never exhausted *)

Lemma star_loop_ext (A : Type) (step : state -> (state -> option A) -> option A)
  (k1 k2 : state -> option A) :
  (forall s j1 j2, (forall s', j1 s' = j2 s') -> step s j1 = step s j2) ->
  (forall s, k1 s = k2 s) ->
  forall fuel s, star_loop step k1 fuel s = star_loop step k2 fuel s.
Proof.
  intros Hstep Hk. induction fuel as [|fuel IH]; intros s; simpl.
  - apply Hk.
  - rewrite (Hstep s _ (fun s' =>
       if (length (rest s') <? length (rest s))%nat
       then star_loop step k2 fuel s' else None)).
    + rewrite Hk. reflexivity.
    + intros s'. rewrite IH. reflexivity.
Qed.

Lemma run_ext r : forall (A : Type) s (k1 k2 : state -> option A),
  (forall s', k1 s' = k2 s') -> run r s k1 = run r s k2.
Proof.
  induction r; intros A s k1 k2 H; simpl; auto.
  - destruct (rest s) as [|c tl]; auto. destruct (p c); auto.
  - destruct (pos s =? 0)%nat; auto.
  - destruct (rest s) as [|c [|c' tl]]; auto. destruct (c =? NEWLINE)%N; auto.
  - rewrite (IHr1 A s k1 k2 H), (IHr2 A s k1 k2 H). reflexivity.
  - rewrite (IHr A s k1 k2 H), H. reflexivity.
  - apply star_loop_ext; auto.
Qed.

Lemma star_loop_none (A : Type) (step : state -> (state -> option A) -> option A) :
  (forall s j1 j2, (forall s', j1 s' = j2 s') -> step s j1 = step s j2) ->
  (forall s, step s (fun _ => None) = None) ->
  forall fuel s, star_loop step (fun _ => None) fuel s = None.
Proof.
  intros Hext Hnone. induction fuel as [|fuel IH]; intros s; simpl; auto.
  rewrite (Hext s _ (fun _ => None)).
  - rewrite Hnone. reflexivity.
  - intros s'. rewrite IH. destruct (_ <? _)%nat; reflexivity.
Qed.

Lemma run_none r : forall (A : Type) s, run r s (fun _ => @None A) = None.
Proof.
  induction r; intros A s; simpl; auto.
  - destruct (rest s) as [|c tl]; auto. destruct (p c); auto.
  - destruct (pos s =? 0)%nat; auto.
  - destruct (rest s) as [|c [|c' tl]]; auto. destruct (c =? NEWLINE)%N; auto.
  - rewrite (run_ext r1 A s _ (fun _ => None)); auto.
  - rewrite IHr1, IHr2. reflexivity.
  - rewrite IHr. reflexivity.
  - apply star_loop_none; auto. intros. apply run_ext. assumption.
Qed.

(** The loop of [Star] gives the same answer with any fuel that covers
    the remaining characters. *)
Lemma star_loop_fuel (A : Type) r (k : state -> option A) :
  forall f1 f2 s,
    length (rest s) <= f1 -> length (rest s) <= f2 ->
    star_loop (run r) k f1 s = star_loop (run r) k f2 s.
Proof.
  assert (Hzero : forall f s, length (rest s) = 0 ->
            star_loop (run r) k f s = k s).
  { intros [|f] s Hs; simpl; auto.
    rewrite (run_ext r A s _ (fun _ => None)).
    - rewrite run_none. reflexivity.
    - intros s'. rewrite Hs. reflexivity. }
  induction f1 as [|f1 IH]; intros f2 s H1 H2.
  - rewrite !Hzero by lia. reflexivity.
  - destruct f2 as [|f2]; [rewrite !Hzero by lia; reflexivity|].
    simpl. rewrite (run_ext r A s _ (fun s' =>
       if (length (rest s') <? length (rest s))%nat
       then star_loop (run r) k f2 s' else None)); auto.
    intros s'. destruct (Nat.ltb_spec (length (rest s')) (length (rest s))); auto.
    apply IH; lia.
Qed.

(** The scan of [findall] gives the same matches with any fuel above the
    number of characters left. *)
Lemma scan_fuel r : forall f1 f2 p t,
  length t < f1 -> length t < f2 -> scan f1 r p t = scan f2 r p t.
Proof.
  induction f1 as [|f1 IH]; intros f2 p t H1 H2; [lia|].
  destruct f2 as [|f2]; [lia|]. simpl.
  assert (Hnext : match t with [] => [] | _ :: tl => scan f1 r (S p) tl end
                  = match t with [] => [] | _ :: tl => scan f2 r (S p) tl end).
  { destruct t as [|c tl]; auto. apply IH; simpl in *; lia. }
  destruct (run r (mk_state p t []) Some) as [m|] eqn:E; [|exact Hnext].
  f_equal. destruct (Nat.ltb_spec p (pos m)); [|exact Hnext].
  apply run_sound in E. destruct E as (s' & Hm & [= ->]).
  apply Matches_consumes in Hm. simpl in Hm. destruct Hm as (a & Ea & Pa).
  assert (length t = length a + length (rest m))
    by (rewrite Ea, length_app; reflexivity).
  apply IH; lia.
Qed.

(* ================================================================== *)
(** * The channel classifier *)
(* ================================================================== *)

(** ** Literals *)

Lemma Matches_lit w : forall s s',
  Matches (Lit w) s s' ->
  rest s = w ++ rest s' /\ pos s' = pos s + length w /\ caps s' = caps s.
Proof.
  induction w as [|c w IH]; intros s s' H; simpl in H.
  - inversion H; subst. simpl. auto.
  - inversion H as [| | | |r1 r2 s0 s1 s2 H1 H2| | | | | | |]; subst.
    apply Matches_chr in H1. destruct H1 as (c' & Hc & E & P & C).
    apply N.eqb_eq in Hc. subst c'.
    apply IH in H2. destruct H2 as (E2 & P2 & C2).
    rewrite E, E2, P2, P, C2, C. simpl. repeat split; auto; lia.
Qed.

Lemma run_lit (A : Type) w : forall n t cs (k : state -> option A),
  run (Lit w) (mk_state n (w ++ t) cs) k = k (mk_state (n + length w) t cs).
Proof.
  induction w as [|c w IH]; intros n t cs k; simpl Lit; simpl app.
  - simpl. rewrite Nat.add_0_r. reflexivity.
  - rewrite run_seq. unfold lit at 1. rewrite run_chr_cons, N.eqb_refl, IH.
    simpl. f_equal. f_equal. lia.
Qed.

Lemma run_bol_start (A : Type) t cs (k : state -> option A) :
  run Bol (mk_state 0 t cs) k = k (mk_state 0 t cs).
Proof. reflexivity. Qed.

(** ** The channel classifier *)

Lemma dot_true c : (negb (c =? NEWLINE)%N = true) <-> c <> NEWLINE.
Proof.
  rewrite negb_true_iff, N.eqb_neq. tauto.
Qed.

Lemma Forall_dot a :
  Forall (fun c => negb (c =? NEWLINE)%N = true) a <-> ~ In NEWLINE a.
Proof.
  rewrite Forall_forall. split.
  - intros H Hin. apply H in Hin. apply dot_true in Hin. congruence.
  - intros H c Hc. apply dot_true. intros ->. auto.
Qed.

Lemma match_individual_sound n m :
  match_ INDIVIDUAL_CHANNEL_PATTERN n = Some m ->
  exists r, r <> [] /\ ~ In NEWLINE r
            /\ (n = INDIVIDUAL_PREFIX ++ r \/ n = INDIVIDUAL_PREFIX ++ r ++ [NEWLINE])
            /\ group n m 1 = r.
Proof.
  unfold match_, INDIVIDUAL_CHANNEL_PATTERN. intros H.
  apply run_sound in H. destruct H as (m' & H & Hm). injection Hm as ->.
  apply Matches_seq_inv in H. destruct H as (s1 & Hbol & H).
  apply Matches_bol_inv in Hbol. destruct Hbol as [-> _].
  apply Matches_seq_inv in H. destruct H as (s2 & Hlit & H).
  apply (Matches_lit INDIVIDUAL_PREFIX) in Hlit. cbn [pos rest caps] in Hlit.
  destruct Hlit as (E1 & P1 & C1).
  apply Matches_seq_inv in H. destruct H as (s3 & Hg & Heol).
  apply Matches_eol_inv in Heol. destruct Heol as [-> He].
  apply Matches_group_inv in Hg. destruct Hg as (s4 & Hp & ->).
  apply Matches_plus_chr in Hp. destruct Hp as (a & Ha & E2 & F & P2 & C2).
  simpl in He. exists a. split; [exact Ha|]. split; [apply Forall_dot; exact F|].
  assert (En : n = INDIVIDUAL_PREFIX ++ a ++ rest s4)
    by (rewrite E1, E2; reflexivity).
  split.
  - destruct He as [He|He]; rewrite He in En.
    + left. rewrite app_nil_r in En. exact En.
    + right. exact En.
  - unfold group. simpl. rewrite P2, P1, En.
    apply (slice_app INDIVIDUAL_PREFIX a (rest s4)).
Qed.

Lemma match_individual_complete r e :
  r <> [] -> ~ In NEWLINE r -> e = [] \/ e = [NEWLINE] ->
  exists m, match_ INDIVIDUAL_CHANNEL_PATTERN (INDIVIDUAL_PREFIX ++ r ++ e) = Some m
            /\ group (INDIVIDUAL_PREFIX ++ r ++ e) m 1 = r.
Proof.
  intros Hr Hnl He.
  eexists. split.
  - unfold match_, INDIVIDUAL_CHANNEL_PATTERN.
    rewrite run_seq, run_bol_start, run_seq, run_lit, run_seq, run_group.
    apply run_plus_chr_full.
    + exact Hr.
    + apply Forall_dot. exact Hnl.
    + destruct He as [-> | ->]; simpl; auto.
    + cbn [pos rest caps]. destruct He as [-> | ->]; reflexivity.
  - unfold group. cbn [caps span Nat.eqb].
    apply (slice_app INDIVIDUAL_PREFIX r e).
Qed.

Lemma extract_person_name_iff n r :
  extract_person_name n = Some r <->
  r <> [] /\ ~ In NEWLINE r
  /\ (n = INDIVIDUAL_PREFIX ++ r \/ n = INDIVIDUAL_PREFIX ++ r ++ [NEWLINE]).
Proof.
  unfold extract_person_name. split.
  - destruct (match_ INDIVIDUAL_CHANNEL_PATTERN n) as [m|] eqn:E; [|discriminate].
    intros [= <-]. apply match_individual_sound in E.
    destruct E as (r & Hr & Hnl & Hn & Hg). rewrite Hg. auto.
  - intros (Hr & Hnl & Hn).
    assert (exists e, (e = [] \/ e = [NEWLINE]) /\ n = INDIVIDUAL_PREFIX ++ r ++ e)
      as (e & He & ->).
    { destruct Hn as [-> | ->]; [exists [] | exists [NEWLINE]];
        rewrite ?app_nil_r; auto. }
    destruct (@match_individual_complete r e Hr Hnl He) as (m & -> & ->).
    reflexivity.
Qed.

Lemma extract_person_name_nonempty n r :
  extract_person_name n = Some r -> r <> [].
Proof. intros H. apply extract_person_name_iff in H. tauto. Qed.

Lemma is_individual_channel_iff n :
  is_individual_channel n = true <-> extract_person_name n <> None.
Proof.
  unfold is_individual_channel, extract_person_name.
  destruct (match_ INDIVIDUAL_CHANNEL_PATTERN n); split; congruence.
Qed.

(** C2, amended.  [extract_person_name n] returns [r] exactly when [r] is
    non-empty and free of newlines and [n] is the prefix followed by [r],
    or by [r] and one final newline; the classifier accepts [n] exactly
    when a name is returned; and for a channel name [n] without a newline
    the name returned is the whole non-empty remainder after the prefix,
    [None] being returned in every other case. *)
Theorem extract_person_name_spec (n : str) :
  (forall r, extract_person_name n = Some r <->
     r <> [] /\ ~ In NEWLINE r
     /\ (n = INDIVIDUAL_PREFIX ++ r \/ n = INDIVIDUAL_PREFIX ++ r ++ [NEWLINE]))
  /\ (is_individual_channel n = true <-> extract_person_name n <> None)
  /\ (~ In NEWLINE n ->
      forall r, extract_person_name n = Some r <->
                r <> [] /\ n = INDIVIDUAL_PREFIX ++ r).
Proof.
  split; [intros r; apply extract_person_name_iff|].
  split; [apply is_individual_channel_iff|].
  intros Hn r. rewrite extract_person_name_iff. split.
  - intros (Hr & Hnl & [E | E]); [auto|].
    exfalso. apply Hn. rewrite E, !in_app_iff. simpl. auto.
  - intros (Hr & E). repeat split; auto.
    intros Hin. apply Hn. rewrite E, in_app_iff. auto.
Qed.

(* ================================================================== *)
(** * The KPI extractor *)
(* ================================================================== *)

Section ExtractorFacts.
Context {R : PyRuntime}.

(** ** Pattern 1 *)

Lemma groupless_number : groupless number = true.
Proof. reflexivity. Qed.

Lemma pattern1_shape p0 t0 m :
  run pattern1 (mk_state p0 t0 []) Some = Some m ->
  exists a b c,
    t0 = a ++ b ++ c ++ rest m
    /\ a <> [] /\ Forall (fun x => label_char x = true) a
    /\ b <> [] /\ Forall (fun x => separator_char x = true) b
    /\ caps m = [(2, (p0 + length a + length b,
                      p0 + length a + length b + length c));
                 (1, (p0, p0 + length a))].
Proof.
  intros H. apply run_sound in H. destruct H as (m' & H & Hm). injection Hm as ->.
  unfold pattern1 in H.
  apply Matches_seq_inv in H. destruct H as (s1 & Hg1 & H).
  apply Matches_group_inv in Hg1. destruct Hg1 as (s1' & Hl & ->).
  apply Matches_plus_chr in Hl. cbn [pos rest caps] in Hl.
  destruct Hl as (a & Ha & Ea & Fa & Pa & Ca).
  apply Matches_seq_inv in H. destruct H as (s2 & Hs & Hg2).
  apply Matches_plus_chr in Hs. cbn [pos rest caps] in Hs.
  destruct Hs as (b & Hb & Eb & Fb & Pb & Cb).
  apply Matches_group_inv in Hg2. destruct Hg2 as (s3 & Hn & ->).
  pose proof (Matches_groupless _ _ _ Hn groupless_number) as Cn.
  apply Matches_consumes in Hn. destruct Hn as (c & Ec & Pc).
  exists a, b, c. cbn [pos rest caps].
  rewrite Cn, Cb, Ca, Pc, Pb, Pa, Ea, Eb, Ec. repeat split; auto.
Qed.

Lemma findall_pattern1_sound t label value :
  In (label, value) (findall pattern1 t) ->
  exists pre sep post,
    t = pre ++ label ++ sep ++ value ++ post
    /\ sep <> [] /\ Forall (fun x => separator_char x = true) sep.
Proof.
  unfold findall. rewrite in_map_iff. intros (m & Hm & Hin).
  apply (scan_sound pattern1 t _ _ _ []) in Hin; auto.
  destruct Hin as (pre0 & t0 & Ht & Hrun).
  apply pattern1_shape in Hrun.
  destruct Hrun as (a & b & c & Et & Ha & Fa & Hb & Fb & Hc).
  assert (Eg1 : group t m 1 = a).
  { unfold group. rewrite Hc. cbn [span Nat.eqb]. rewrite Ht, Et.
    apply slice_app. }
  assert (Eg2 : group t m 2 = c).
  { unfold group. rewrite Hc. cbn [span Nat.eqb]. rewrite Ht, Et.
    replace (pre0 ++ a ++ b ++ c ++ rest m)
      with ((pre0 ++ a ++ b) ++ c ++ rest m)
      by (rewrite <- !app_assoc; reflexivity).
    replace (length pre0 + length a + length b)
      with (length (pre0 ++ a ++ b)) by (rewrite !length_app; lia).
    apply slice_app. }
  rewrite Eg1, Eg2 in Hm. injection Hm as <- <-.
  exists pre0, b, (rest m). rewrite Ht, Et. auto.
Qed.

Lemma run_number_digits (A : Type) (k : state -> option A) n d cs res :
  d <> [] -> Forall (fun x => isdecimal x = true) d ->
  k (mk_state (n + length d) [] cs) = Some res ->
  run number (mk_state n d cs) k = Some res.
Proof.
  intros Hd Fd Hk. unfold number, digit. rewrite run_seq.
  rewrite <- (app_nil_r d) at 1.
  apply run_plus_chr_full; simpl; auto.
Qed.

Lemma scan_pattern1_nil fuel p : scan fuel pattern1 p [] = [].
Proof. destruct fuel; reflexivity. Qed.

Lemma findall_pattern1_whitespace w ws d :
  w <> [] -> Forall (fun x => label_char x = true) w ->
  ws <> [] -> Forall (fun x => isspace x = true) ws ->
  d <> [] -> Forall (fun x => isdecimal x = true) d ->
  Forall (fun x => separator_char x = false) d ->
  findall pattern1 (w ++ ws ++ d) = [(w, d)].
Proof.
  intros Hw Fw Hws Fws Hd Fd Fsep.
  assert (Hrun : run pattern1 (mk_state 0 (w ++ ws ++ d) []) Some
                 = Some (mk_state (0 + length w + length ws + length d) []
                           [(2, (0 + length w + length ws,
                                 0 + length w + length ws + length d));
                            (1, (0, 0 + length w))])).
  { unfold pattern1. rewrite run_seq, run_group.
    apply run_plus_chr_full; auto.
    - destruct ws as [|c ws]; [congruence|]. simpl.
      inversion Fws; subst. unfold label_char.
      match goal with H : isspace c = true |- _ => rewrite H end. reflexivity.
    - cbn [pos rest caps]. rewrite run_seq.
      apply run_plus_chr_full; auto.
      + eapply Forall_impl; [|exact Fws]. intros c Hc. unfold separator_char.
        rewrite Hc, orb_true_r. reflexivity.
      + destruct d as [|c d]; [congruence|]. simpl. inversion Fsep; auto.
      + rewrite run_group. cbn [pos rest caps].
        apply run_number_digits; auto. }
  unfold findall. cbn [scan]. rewrite Hrun. cbn [pos rest].
  replace (0 <? 0 + length w + length ws + length d)%nat with true.
  2:{ symmetry. apply Nat.ltb_lt. destruct w; [congruence|]. simpl. lia. }
  rewrite scan_pattern1_nil. cbn [map]. unfold group. cbn [caps span Nat.eqb].
  f_equal. f_equal.
  - apply (slice_app [] w (ws ++ d)).
  - replace (w ++ ws ++ d) with ((w ++ ws) ++ d ++ [])
      by (rewrite app_nil_r, <- app_assoc; reflexivity).
    replace (0 + length w + length ws) with (length (w ++ ws))
      by (rewrite length_app; lia).
    apply slice_app.
Qed.

(** ** Substrings *)

Lemma substring_trans a b c : substring a b -> substring b c -> substring a c.
Proof.
  intros (p1 & q1 & ->) (p2 & q2 & ->).
  exists (p2 ++ p1), (q1 ++ q2). rewrite <- !app_assoc. reflexivity.
Qed.

Lemma lstrip_suffix s : exists pre, s = pre ++ lstrip s.
Proof.
  induction s as [|c s (pre & IH)]; simpl.
  - exists []. reflexivity.
  - destruct (isspace c).
    + exists (c :: pre). simpl. f_equal. exact IH.
    + exists []. reflexivity.
Qed.

Lemma rstrip_prefix s : exists post, s = rstrip s ++ post.
Proof.
  unfold rstrip. destruct (lstrip_suffix (rev s)) as (pre & E).
  exists (rev pre). rewrite <- rev_app_distr, <- E, rev_involutive. reflexivity.
Qed.

Lemma strip_substring s : substring (strip s) s.
Proof.
  unfold strip. destruct (lstrip_suffix s) as (pre & E).
  destruct (rstrip_prefix (lstrip s)) as (post & E').
  exists pre, post. rewrite <- E', <- E. reflexivity.
Qed.

Lemma group_substring t m n : substring (group t m n) t.
Proof.
  unfold group. destruct (span (caps m) n) as [[a b]|].
  - apply slice_substring.
  - exists [], t. reflexivity.
Qed.

Lemma findall_substring r t k v :
  In (k, v) (findall r t) -> substring k t /\ substring v t.
Proof.
  unfold findall. rewrite in_map_iff. intros (m & [= <- <-] & _).
  split; apply group_substring.
Qed.

End ExtractorFacts.

(** ** Dictionaries *)

Lemma str_eqb_eq a b : str_eqb a b = true <-> a = b.
Proof. unfold str_eqb. destruct (str_eq_dec a b); split; congruence. Qed.

Lemma dict_set_in V (d : dict V) k v k' v' :
  In (k, v) (dict_set d k' v') -> (k, v) = (k', v') \/ In (k, v) d.
Proof.
  induction d as [|[k0 v0] d IH]; simpl.
  - intros [H | []]. left. congruence.
  - destruct (str_eqb k0 k'); simpl.
    + intros [H | H]; [left; congruence | auto].
    + intros [H | H]; [auto | apply IH in H; tauto].
Qed.

Lemma dict_set_keys V (d : dict V) k v :
  keys (dict_set d k v) = keys d /\ In k (keys d)
  \/ keys (dict_set d k v) = keys d ++ [k] /\ ~ In k (keys d).
Proof.
  induction d as [|[k0 v0] d IH]; simpl.
  - right. auto.
  - destruct (str_eqb k0 k) eqn:E; simpl.
    + apply str_eqb_eq in E. subst. left. auto.
    + assert (k0 <> k) by (intros ->; rewrite (proj2 (str_eqb_eq k k) eq_refl) in E; discriminate).
      destruct IH as [[-> Hin] | [-> Hn]]; [left | right]; split; auto.
      intros [? | ?]; auto.
Qed.

Lemma dict_set_NoDup V (d : dict V) k v :
  NoDup (keys d) -> NoDup (keys (dict_set d k v)).
Proof.
  intros H. destruct (dict_set_keys V d k v) as [[-> _] | [-> Hn]]; auto.
  apply NoDup_app; auto.
  - constructor; [intros [] | constructor].
  - intros x Hx [<- | []]. auto.
Qed.

Section ExtractorTotal.
Context {R : PyRuntime}.

Lemma store_matches_inv (Q : str * str -> Prop) ms : forall d,
  (forall kv, In kv d -> Q kv) ->
  (forall m, In m ms -> Q (strip (fst m), strip (snd m))) ->
  forall kv, In kv (store_matches d ms) -> Q kv.
Proof.
  unfold store_matches. induction ms as [|m ms IH]; intros d Hd Hms kv; simpl.
  - apply Hd.
  - apply IH.
    + intros [k v] Hin. apply dict_set_in in Hin. destruct Hin as [-> | Hin]; auto.
      apply Hms. left. reflexivity.
    + intros m' Hm'. apply Hms. right. exact Hm'.
Qed.

Lemma store_matches_NoDup ms : forall d,
  NoDup (keys d) -> NoDup (keys (store_matches d ms)).
Proof.
  unfold store_matches. induction ms as [|m ms IH]; intros d Hd; simpl; auto.
  apply IH. apply dict_set_NoDup. exact Hd.
Qed.

Lemma extract_kpi_values_substrings t k v :
  In (k, v) (_extract_kpi_values t) -> substring k t /\ substring v t.
Proof.
  set (Q := fun kv : str * str => substring (fst kv) t /\ substring (snd kv) t).
  assert (Hfind : forall r m, In m (findall r t) -> Q (strip (fst m), strip (snd m))).
  { intros r [a b] Hin. apply findall_substring in Hin. destruct Hin as [Ha Hb].
    split; simpl; eapply substring_trans; eauto using strip_substring. }
  unfold _extract_kpi_values, patterns. simpl fold_left. intros H.
  change (Q (k, v)). revert H.
  apply store_matches_inv; [|apply Hfind].
  apply store_matches_inv; [|apply Hfind].
  apply store_matches_inv; [|apply Hfind].
  intros kv [].
Qed.

Lemma extract_kpi_values_NoDup t : NoDup (keys (_extract_kpi_values t)).
Proof.
  unfold _extract_kpi_values, patterns. simpl fold_left.
  do 3 apply store_matches_NoDup. constructor.
Qed.

End ExtractorTotal.

(** C3, amended.  A pair extracted by pattern 1 is a label followed in the
    text by a non-empty run of separator characters (colon, full-width
    colon or whitespace) and then by the value; and a run of whitespace
    alone is enough: a word, whitespace and digits, with no colon, give
    the pair of the word and the digits. *)
Theorem pattern1_separator {R : PyRuntime} (t : str) :
  (forall label value,
     In (label, value) (findall pattern1 t) ->
     exists pre sep post,
       t = pre ++ label ++ sep ++ value ++ post
       /\ sep <> [] /\ Forall (fun x => separator_char x = true) sep)
  /\ (forall w ws d,
        t = w ++ ws ++ d ->
        w <> [] -> Forall (fun x => label_char x = true) w ->
        ws <> [] -> Forall (fun x => isspace x = true) ws ->
        d <> [] -> Forall (fun x => isdecimal x = true) d ->
        Forall (fun x => separator_char x = false) d ->
        findall pattern1 t = [(w, d)]).
Proof.
  split.
  - intros label value. apply findall_pattern1_sound.
  - intros w ws d ->. apply findall_pattern1_whitespace.
Qed.

(** C4.  [_extract_kpi_values] is total; the mapping it returns has
    distinct keys, and every key and every value in it is a contiguous
    substring of the text, kept as a string. *)
Theorem extract_kpi_values_total {R : PyRuntime} (t : str) :
  NoDup (keys (_extract_kpi_values t))
  /\ forall k v, In (k, v) (_extract_kpi_values t) ->
                 substring k t /\ substring v t.
Proof.
  split; [apply extract_kpi_values_NoDup|].
  intros k v. apply extract_kpi_values_substrings.
Qed.


(* ================================================================== *)
(** * The tabulator *)
(* ================================================================== *)

(** ** The order on strings *)

Lemma str_compare_antisym a : forall b,
  str_compare b a = CompOpp (str_compare a b).
Proof.
  induction a as [|x a IH]; intros [|y b]; simpl; auto.
  rewrite (N.compare_antisym x y). destruct (x ?= y)%N; simpl; auto.
Qed.

Lemma str_compare_eq a : forall b, str_compare a b = Eq -> a = b.
Proof.
  induction a as [|x a IH]; intros [|y b]; simpl; try discriminate; auto.
  destruct (x ?= y)%N eqn:E; try discriminate.
  apply N.compare_eq in E. intros H. f_equal; auto.
Qed.

Lemma str_compare_refl a : str_compare a a = Eq.
Proof.
  induction a as [|x a IH]; simpl; auto. rewrite N.compare_refl. exact IH.
Qed.

Lemma str_lt_trans a : forall b c, str_lt a b -> str_lt b c -> str_lt a c.
Proof.
  unfold str_lt. induction a as [|x a IH]; intros [|y b] [|z c]; simpl;
    try discriminate; auto.
  destruct (x ?= y)%N eqn:Exy; try discriminate;
    destruct (y ?= z)%N eqn:Eyz; try discriminate; intros H1 H2.
  - apply N.compare_eq in Exy, Eyz. subst. rewrite N.compare_refl. eauto.
  - apply N.compare_eq in Exy. subst. rewrite Eyz. reflexivity.
  - apply N.compare_eq in Eyz. subst. rewrite Exy. reflexivity.
  - rewrite N.compare_lt_iff in Exy, Eyz.
    replace (x ?= z)%N with Lt; [reflexivity|].
    symmetry. apply N.compare_lt_iff. lia.
Qed.

Lemma str_leb_lt_or_eq a b : str_leb a b = true <-> str_lt a b \/ a = b.
Proof.
  unfold str_leb, str_lt. split.
  - destruct (str_compare a b) eqn:E; try discriminate; auto.
    right. apply str_compare_eq. exact E.
  - intros [-> | ->]; [reflexivity|]. rewrite str_compare_refl. reflexivity.
Qed.

Lemma str_leb_trans a b c :
  str_leb a b = true -> str_leb b c = true -> str_leb a c = true.
Proof.
  rewrite !str_leb_lt_or_eq. intros [H1 | ->] [H2 | ->]; auto.
  left. eapply str_lt_trans; eauto.
Qed.

Lemma str_leb_total a b : str_leb a b = false -> str_leb b a = true.
Proof.
  unfold str_leb. rewrite (str_compare_antisym a b).
  destruct (str_compare a b); simpl; congruence.
Qed.

(** ** [sorted] *)

Section Sorted.
Variables (A : Type) (leb : A -> A -> bool).
Hypothesis leb_total : forall x y, leb x y = false -> leb y x = true.
Hypothesis leb_trans :
  forall x y z, leb x y = true -> leb y z = true -> leb x z = true.

Lemma insert_sorted_perm x l : Permutation (insert_sorted leb x l) (x :: l).
Proof.
  induction l as [|y l IH]; simpl; auto.
  destruct (leb x y); auto.
  rewrite IH. apply perm_swap.
Qed.

Lemma sorted_perm l : Permutation (sorted leb l) l.
Proof.
  induction l as [|x l IH]; simpl; auto.
  rewrite insert_sorted_perm. auto.
Qed.

Lemma insert_sorted_StronglySorted x l :
  StronglySorted (holds leb) l ->
  StronglySorted (holds leb) (insert_sorted leb x l).
Proof.
  induction 1 as [|y l Hl IH Hy]; simpl.
  - repeat constructor.
  - destruct (leb x y) eqn:E.
    + constructor; [constructor; assumption|].
      constructor; [exact E|].
      eapply Forall_impl; [|exact Hy]. intros z Hz.
      exact (leb_trans x y z E Hz).
    + constructor; [exact IH|].
      rewrite Forall_forall. intros z Hz.
      apply (Permutation_in _ (insert_sorted_perm x l)) in Hz.
      destruct Hz as [<- | Hz].
      * apply leb_total. exact E.
      * rewrite Forall_forall in Hy. auto.
Qed.

Lemma sorted_StronglySorted l : StronglySorted (holds leb) (sorted leb l).
Proof.
  induction l as [|x l IH]; simpl.
  - constructor.
  - apply insert_sorted_StronglySorted. exact IH.
Qed.

End Sorted.

Lemma StronglySorted_leb_lt l :
  StronglySorted (holds str_leb) l -> NoDup l -> StronglySorted str_lt l.
Proof.
  induction 1 as [|x l Hl IH Hx]; intros Hnd; constructor;
    inversion Hnd as [|? ? Hnin Hnd']; subst; auto.
  rewrite Forall_forall in *. intros y Hy.
  destruct (proj1 (str_leb_lt_or_eq x y) (Hx y Hy)) as [H | ->]; tauto.
Qed.

Lemma StronglySorted_map (A B : Type) (f : A -> B) (RA : A -> A -> Prop)
  (RB : B -> B -> Prop) l :
  (forall x y, RA x y -> RB (f x) (f y)) ->
  StronglySorted RA l -> StronglySorted RB (map f l).
Proof.
  intros Hf. induction 1 as [|x l Hl IH Hx]; simpl; constructor; auto.
  rewrite Forall_forall in *. intros y Hy. apply in_map_iff in Hy.
  destruct Hy as (z & <- & Hz). auto.
Qed.

(** ** The overview table *)

Section Tabulator.
Context {R : PyRuntime}.

Lemma sorted_items_perm d : Permutation (sorted_items d) d.
Proof. apply sorted_perm. Qed.

Lemma sorted_items_keys_sorted d :
  NoDup (keys d) -> StronglySorted str_lt (keys (sorted_items d)).
Proof.
  intros Hnd. apply StronglySorted_leb_lt.
  - unfold keys. eapply StronglySorted_map; [|apply sorted_StronglySorted].
    + intros x y H. exact H.
    + intros x y. apply str_leb_total.
    + intros x y z. apply str_leb_trans.
  - eapply Permutation_NoDup; [|exact Hnd].
    symmetry. apply Permutation_map. apply sorted_items_perm.
Qed.

Lemma overview_row_name st item : hd [] (overview_row st item) = fst item.
Proof. destruct item as [p [|m ms]]; reflexivity. Qed.

Lemma overview_row_length st item : length (overview_row st item) = 6.
Proof. destruct item as [p [|m ms]]; reflexivity. Qed.

Lemma overview_row_sync_time st item :
  nth_error (overview_row st item) 5 = Some st.
Proof. destruct item as [p [|m ms]]; reflexivity. Qed.

Lemma overview_row_firstn st1 st2 item :
  firstn 5 (overview_row st1 item) = firstn 5 (overview_row st2 item).
Proof. destruct item as [p [|m ms]]; reflexivity. Qed.

Lemma overview_row_empty st p :
  overview_row st (p, []) =
  [p; INDIVIDUAL_PREFIX ++ p; u "0"; u "-"; u "-"; st].
Proof. reflexivity. Qed.

Lemma overview_names now d :
  map (hd []) (tl (_prepare_overview_data now d)) = keys (sorted_items d).
Proof.
  unfold _prepare_overview_data. simpl. rewrite map_map.
  apply map_ext. intros item. apply overview_row_name.
Qed.

(** C6.  For a record mapping (distinct persons) the overview table has
    the six-column header as row 0, six cells in every row, one data row
    per person, and the persons of the data rows are those of the mapping
    in strictly ascending lexicographic order. *)
Theorem overview_layout now d :
  NoDup (keys d) ->
  let table := _prepare_overview_data now d in
  nth_error table 0 = Some overview_headers
  /\ Forall (fun row => length row = 6) table
  /\ length (tl table) = length d
  /\ Permutation (map (hd []) (tl table)) (keys d)
  /\ StronglySorted str_lt (map (hd []) (tl table)).
Proof.
  intros Hnd table. subst table. rewrite overview_names.
  repeat split.
  - unfold _prepare_overview_data. constructor; [reflexivity|].
    rewrite Forall_forall. intros row Hrow. apply in_map_iff in Hrow.
    destruct Hrow as (item & <- & _). apply overview_row_length.
  - unfold _prepare_overview_data. simpl. rewrite length_map.
    apply Permutation_length. apply sorted_items_perm.
  - apply Permutation_map. apply sorted_items_perm.
  - apply sorted_items_keys_sorted. exact Hnd.
Qed.

Lemma overview_has_empty_row now d p :
  In (p, []) d ->
  In [p; INDIVIDUAL_PREFIX ++ p; u "0"; u "-"; u "-"; strftime now]
     (tl (_prepare_overview_data now d)).
Proof.
  intros Hin. unfold _prepare_overview_data. simpl.
  rewrite <- overview_row_empty. apply in_map.
  eapply Permutation_in; [symmetry; apply sorted_items_perm | exact Hin].
Qed.

(** C10.  A person whose record sequence is empty still gets an overview
    row: the name, the synthesized channel name, the count 0 and the
    placeholder "-" for the latest time and the latest text. *)
Theorem overview_empty_person now d p :
  In (p, []) d ->
  In [p; INDIVIDUAL_PREFIX ++ p; u "0"; u "-"; u "-"; strftime now]
     (tl (_prepare_overview_data now d)).
Proof. apply overview_has_empty_row. Qed.

(** C7, amended.  The overview builder has no time parameter, it reads
    the clock itself: two tables built from the same records are equal
    when the two clock readings format to the same string, they agree in
    every cell of the first five columns whatever the readings are, and
    the sixth cell of every data row is the formatted reading.  The detail
    table is determined by the records alone. *)
Theorem builders_determined now1 now2 d p1 p2 msgs :
  (strftime now1 = strftime now2 ->
   _prepare_overview_data now1 d = _prepare_overview_data now2 d)
  /\ map (firstn 5) (_prepare_overview_data now1 d)
     = map (firstn 5) (_prepare_overview_data now2 d)
  /\ Forall (fun row => nth_error row 5 = Some (strftime now1))
            (tl (_prepare_overview_data now1 d))
  /\ _prepare_detail_data p1 msgs = _prepare_detail_data p2 msgs.
Proof.
  unfold _prepare_overview_data. repeat split.
  - intros ->. reflexivity.
  - simpl. f_equal. rewrite !map_map. apply map_ext.
    intros item. apply overview_row_firstn.
  - simpl. rewrite Forall_forall. intros row Hrow. apply in_map_iff in Hrow.
    destruct Hrow as (item & <- & _). apply overview_row_sync_time.
Qed.

(** ** Dropped messages *)

Lemma parse_blank message channel_info :
  strip (message_text message) = [] ->
  _extract_kpi_values (message_text message) = [] ->
  parse_kpi_message message channel_info = None.
Proof.
  intros Hs Hk. unfold parse_kpi_message. rewrite Hs, Hk. reflexivity.
Qed.

Lemma parse_messages_app pre post channel_info :
  parse_messages (pre ++ post) channel_info
  = parse_messages pre channel_info ++ parse_messages post channel_info.
Proof.
  induction pre as [|m pre IH]; simpl; auto.
  destruct (parse_kpi_message m channel_info); simpl; rewrite IH; reflexivity.
Qed.

(** C5.  A raw message whose text strips to nothing and whose extracted
    mapping is empty yields no record, and the records gathered from a
    channel are the same with and without it, so no table built from them
    can differ. *)
Theorem blank_message_dropped message channel_info :
  strip (message_text message) = [] ->
  _extract_kpi_values (message_text message) = [] ->
  parse_kpi_message message channel_info = None
  /\ forall pre post,
       parse_messages (pre ++ message :: post) channel_info
       = parse_messages (pre ++ post) channel_info.
Proof.
  intros Hs Hk. pose proof (parse_blank message channel_info Hs Hk) as Hp.
  split; [exact Hp|]. intros pre post.
  rewrite !parse_messages_app. simpl. rewrite Hp. reflexivity.
Qed.

End Tabulator.

(* ================================================================== *)
(** * The synchronizer *)
(* ================================================================== *)

(** ** More on dictionaries *)

Lemma str_eqb_refl a : str_eqb a a = true.
Proof. apply str_eqb_eq. reflexivity. Qed.

Lemma str_eqb_neq a b : a <> b -> str_eqb a b = false.
Proof.
  intros H. destruct (str_eqb a b) eqn:E; auto.
  apply str_eqb_eq in E. contradiction.
Qed.

Lemma dict_set_has_key V (d : dict V) k v : In k (keys (dict_set d k v)).
Proof.
  destruct (dict_set_keys V d k v) as [[-> H] | [-> _]]; auto.
  apply in_or_app. right. left. reflexivity.
Qed.

Lemma dict_set_keeps_keys V (d : dict V) k v k0 :
  In k0 (keys d) -> In k0 (keys (dict_set d k v)).
Proof.
  intros H. destruct (dict_set_keys V d k v) as [[-> _] | [-> _]]; auto.
  apply in_or_app. auto.
Qed.

(** ** The fallback person name *)

Section Fallback.
Context {R : PyRuntime}.

Lemma parse_user_name message channel_info r :
  parse_kpi_message message channel_info = Some r ->
  user_name r
  = or_else (extract_person_name (name channel_info)) (name channel_info).
Proof.
  unfold parse_kpi_message.
  destruct (_extract_kpi_values (message_text message)) as [|kv kvs];
    [destruct (strip (message_text message)); [discriminate|] |];
    intros [= <-]; reflexivity.
Qed.

Variable slack_client : WebClient.

Lemma gather_channel_keeps_keys cm limit acc n k :
  In k (keys (fst acc)) ->
  In k (keys (fst (gather_channel slack_client cm limit acc n))).
Proof.
  destruct acc as [kpi stats]. unfold gather_channel.
  destruct (dict_get cm n); simpl; auto. apply dict_set_keeps_keys.
Qed.

Lemma gather_fold_keeps_keys cm limit names : forall acc k,
  In k (keys (fst acc)) ->
  In k (keys (fst (fold_left (gather_channel slack_client cm limit) names acc))).
Proof.
  induction names as [|n names IH]; intros acc k H; simpl; auto.
  apply IH. apply gather_channel_keeps_keys. exact H.
Qed.

Lemma gather_channel_fallback cm limit kpi stats n channel :
  extract_person_name n = None ->
  dict_get cm n = Some channel ->
  fst (gather_channel slack_client cm limit (kpi, stats) n)
  = dict_set kpi n (get_kpi_data_from_channel slack_client channel limit).
Proof.
  intros He Hg. unfold gather_channel. rewrite Hg, He. reflexivity.
Qed.

Lemma gather_fold_fallback cm limit n channel names : forall acc,
  extract_person_name n = None ->
  dict_get cm n = Some channel ->
  In n names ->
  In n (keys (fst (fold_left (gather_channel slack_client cm limit) names acc))).
Proof.
  induction names as [|n' names IH]; intros acc He Hg Hin; simpl;
    [contradiction|].
  destruct Hin as [-> | Hin]; [|apply IH; auto].
  apply gather_fold_keeps_keys. destruct acc as [kpi stats].
  rewrite (gather_channel_fallback cm limit kpi stats n channel He Hg).
  apply dict_set_has_key.
Qed.

Lemma parse_some message channel_info :
  strip (message_text message) <> []
  \/ _extract_kpi_values (message_text message) <> [] ->
  exists r, parse_kpi_message message channel_info = Some r.
Proof.
  unfold parse_kpi_message. intros H.
  destruct (_extract_kpi_values (message_text message)) as [|kv kvs];
    [|eexists; reflexivity].
  destruct (strip (message_text message)) as [|c cs]; [|eexists; reflexivity].
  destruct H; congruence.
Qed.

Lemma parse_messages_keeps messages channel_info m r :
  In m messages -> parse_kpi_message m channel_info = Some r ->
  In r (parse_messages messages channel_info).
Proof.
  induction messages as [|m' messages IH]; simpl; [contradiction|].
  intros [-> | Hin] Hp.
  - rewrite Hp. left. reflexivity.
  - destruct (parse_kpi_message m' channel_info); [right|]; auto.
Qed.

(** C9.  When a channel name does not match the naming convention, a
    message of the channel that is not blank is not rejected: it yields a
    record, whose person is the full channel name, and every such fetched
    message has its record among those gathered from the channel; any
    record parsed from the channel carries the full channel name; and an
    explicit-list sync stores the channel's records under the full
    channel name, which is then a key of the gathered data. *)
Theorem fallback_person_name limit names n channel :
  extract_person_name n = None ->
  (forall message channel_info,
     name channel_info = n ->
     strip (message_text message) <> []
     \/ _extract_kpi_values (message_text message) <> [] ->
     exists r,
       parse_kpi_message message channel_info = Some r
       /\ user_name r = n /\ text r = message_text message)
  /\ (forall message channel_info,
        name channel_info = n ->
        In message (get_channel_messages slack_client (id channel_info) limit) ->
        strip (message_text message) <> []
        \/ _extract_kpi_values (message_text message) <> [] ->
        exists r,
          In r (get_kpi_data_from_channel slack_client channel_info limit)
          /\ user_name r = n /\ text r = message_text message)
  /\ (forall message channel_info r,
        name channel_info = n ->
        parse_kpi_message message channel_info = Some r -> user_name r = n)
  /\ (dict_get (channel_map_of (get_all_channels slack_client true)) n
        = Some channel ->
      (forall kpi stats,
         fst (gather_channel slack_client
                (channel_map_of (get_all_channels slack_client true))
                limit (kpi, stats) n)
         = dict_set kpi n (get_kpi_data_from_channel slack_client channel limit))
      /\ (In n names ->
          In n (keys (fst (gather_channels slack_client names limit))))).
Proof.
  intros He.
  assert (Hname : forall message channel_info r,
            name channel_info = n ->
            parse_kpi_message message channel_info = Some r ->
            user_name r = n).
  { intros message channel_info r Hn Hp. apply parse_user_name in Hp.
    rewrite Hp, Hn, He. reflexivity. }
  assert (Hrec : forall message channel_info,
            name channel_info = n ->
            strip (message_text message) <> []
            \/ _extract_kpi_values (message_text message) <> [] ->
            exists r,
              parse_kpi_message message channel_info = Some r
              /\ user_name r = n /\ text r = message_text message).
  { intros message channel_info Hn Hb.
    destruct (parse_some message channel_info Hb) as (r & Hp).
    exists r. split; [exact Hp|]. split; [eapply Hname; eauto|].
    unfold parse_kpi_message in Hp.
    destruct (_extract_kpi_values (message_text message));
      [destruct (strip (message_text message)); [discriminate|]|];
      injection Hp as <-; reflexivity. }
  split; [exact Hrec|]. split; [|split; [exact Hname|]].
  - intros message channel_info Hn Hin Hb.
    destruct (Hrec message channel_info Hn Hb) as (r & Hp & Hu & Ht).
    exists r. split; [|auto]. unfold get_kpi_data_from_channel.
    eapply parse_messages_keeps; eauto.
  - intros Hg. split.
    + intros kpi stats. apply gather_channel_fallback; assumption.
    + intros Hin. unfold gather_channels.
      eapply gather_fold_fallback; eauto.
Qed.

End Fallback.

(** ** The status read *)

Section StatusFacts.
Context {R : PyRuntime}.

Lemma sum_message_counts_convertible rows :
  Forall convertible rows ->
  sum_message_counts rows = Some (fold_right Z.add 0%Z (map row_count rows)).
Proof.
  induction 1 as [|row rows Hrow Hrows IH]; [reflexivity|].
  cbn [sum_message_counts map fold_right]. rewrite IH.
  set (total := fold_right Z.add 0%Z (map row_count rows)).
  unfold row_count. unfold convertible in Hrow.
  destruct (nth_error row 2) as [cell|]; [|reflexivity].
  destruct (str_isdigit cell) eqn:Ed; [|reflexivity].
  specialize (Hrow cell eq_refl Ed).
  destruct (int cell); [reflexivity | congruence].
Qed.

Lemma status_of_convertible header first_row others :
  Forall convertible (first_row :: others) ->
  status_of (header :: first_row :: others)
  = {| last_sync := if Nat.leb 6 (length first_row)
                    then nth_error first_row 5 else None;
       channels_synced := S (length others);
       total_messages :=
         fold_right Z.add 0%Z (map row_count (first_row :: others)) |}.
Proof.
  intros H. unfold status_of. cbn [tl].
  rewrite (sum_message_counts_convertible _ H).
  cbn [length Nat.sub].
  destruct (Nat.leb 6 (length first_row)); reflexivity.
Qed.

End StatusFacts.

(** ** The whole run *)

Section Run.
Context {R : PyRuntime} {S : Type} {service : SheetsService S}.
Variable slack_client : WebClient.
Hypothesis update_ok :
  forall title rows s, fst (values_update title rows s) = true.

Lemma fst_bind (A B : Type) (c : M S A) (k : A -> M S B) s :
  fst (bind c k s) = fst (k (fst (c s)) (snd (c s))).
Proof. unfold bind. destruct (c s). reflexivity. Qed.

Lemma write_data_ok title rows clear_first s :
  fst (write_data title rows clear_first s) = true.
Proof. unfold write_data. rewrite fst_bind. apply update_ok. Qed.

Lemma write_detail_sheet_ok stats person messages s :
  fst (write_detail_sheet stats (person, messages) s)
  = {| channels_processed := channels_processed stats;
       messages_synced := messages_synced stats + length messages;
       errors := errors stats |}.
Proof.
  unfold write_detail_sheet. destruct messages as [|m ms].
  - destruct stats. simpl. rewrite Nat.add_0_r. reflexivity.
  - rewrite fst_bind, fst_bind, write_data_ok. reflexivity.
Qed.

Lemma for_each_details_ok items : forall stats s,
  fst (for_each items write_detail_sheet stats s)
  = {| channels_processed := channels_processed stats;
       messages_synced :=
         messages_synced stats
         + fold_right Nat.add 0 (map (fun item => length (snd item)) items);
       errors := errors stats |}.
Proof.
  induction items as [|[person messages] items IH]; intros stats s.
  - destruct stats. simpl. rewrite Nat.add_0_r. reflexivity.
  - cbn [for_each]. rewrite fst_bind, IH, write_detail_sheet_ok. simpl.
    f_equal. lia.
Qed.

Lemma fetch_failed channel_info limit :
  conversations_history slack_client (id channel_info) (Z.min limit 200)
    = ApiError ->
  get_kpi_data_from_channel slack_client channel_info limit = [].
Proof.
  intros H. unfold get_kpi_data_from_channel, get_channel_messages.
  rewrite H. simpl. destruct (0 <? limit)%Z; reflexivity.
Qed.

Lemma kpi_data_three limit a b c pa pb pc :
  get_individual_channels slack_client = [a; b; c] ->
  extract_person_name (name a) = Some pa ->
  extract_person_name (name b) = Some pb ->
  extract_person_name (name c) = Some pc ->
  pa <> pb -> pa <> pc -> pb <> pc ->
  get_all_individual_kpi_data slack_client limit
  = [(pa, get_kpi_data_from_channel slack_client a limit);
     (pb, get_kpi_data_from_channel slack_client b limit);
     (pc, get_kpi_data_from_channel slack_client c limit)].
Proof.
  intros Hch Ha Hb Hc Hab Hac Hbc.
  pose proof (extract_person_name_nonempty _ _ Ha) as Na.
  pose proof (extract_person_name_nonempty _ _ Hb) as Nb.
  pose proof (extract_person_name_nonempty _ _ Hc) as Nc.
  unfold get_all_individual_kpi_data. rewrite Hch. cbn [fold_left].
  rewrite Ha, Hb, Hc.
  destruct pa as [|xa pa]; [congruence|].
  destruct pb as [|xb pb]; [congruence|].
  destruct pc as [|xc pc]; [congruence|].
  cbn [dict_set]. rewrite (str_eqb_neq _ _ Hab). cbn [dict_set].
  rewrite (str_eqb_neq _ _ Hac). rewrite (str_eqb_neq _ _ Hbc). reflexivity.
Qed.

(** C1, amended.  With three individual channels of distinct persons,
    the fetch of the second one failing and every sheet update
    succeeding, the run completes: the failed channel is kept with an
    empty record sequence, all three channels are counted as processed,
    the records of the other two are synced, no error is counted, and the
    overview built has the empty-record row for the failed channel's
    person. *)
Theorem sync_with_failed_fetch now limit a b c pa pb pc s :
  get_individual_channels slack_client = [a; b; c] ->
  extract_person_name (name a) = Some pa ->
  extract_person_name (name b) = Some pb ->
  extract_person_name (name c) = Some pc ->
  pa <> pb -> pa <> pc -> pb <> pc ->
  conversations_history slack_client (id b) (Z.min limit 200) = ApiError ->
  let records_a := get_kpi_data_from_channel slack_client a limit in
  let records_c := get_kpi_data_from_channel slack_client c limit in
  get_all_individual_kpi_data slack_client limit
    = [(pa, records_a); (pb, []); (pc, records_c)]
  /\ fst (sync_all_individual_kpi slack_client now limit true s)
     = {| channels_processed := 3;
          messages_synced := length records_a + length records_c;
          errors := 0 |}
  /\ In [pb; INDIVIDUAL_PREFIX ++ pb; u "0"; u "-"; u "-"; strftime now]
        (tl (_prepare_overview_data now
               (get_all_individual_kpi_data slack_client limit))).
Proof.
  intros Hch Ha Hb Hc Hab Hac Hbc Hfail records_a records_c.
  assert (Hdata : get_all_individual_kpi_data slack_client limit
                  = [(pa, records_a); (pb, []); (pc, records_c)]).
  { rewrite (kpi_data_three limit a b c pa pb pc); auto.
    rewrite (fetch_failed b limit Hfail). reflexivity. }
  split; [exact Hdata|]. split.
  - unfold sync_all_individual_kpi. rewrite Hdata.
    rewrite fst_bind, fst_bind, write_data_ok, for_each_details_ok.
    simpl. f_equal. lia.
  - apply overview_has_empty_row. rewrite Hdata. simpl. auto.
Qed.

End Run.

(* ================================================================== *)
(** * Concrete inputs *)
(* ================================================================== *)

(** C8, at the failing input.  On a sheet whose count cells are "5" and
    the superscript digit U+00B2, the conversion of the second cell fails
    although [isdigit] accepts it, and the status keeps the total 0. *)
Theorem status_superscript_cell :
  sum_message_counts (tl superscript_sheet) = None
  /\ status_of superscript_sheet
     = {| last_sync := Some (u "2023-11-14 23:13:20");
          channels_synced := 2;
          total_messages := 0 |}.
Proof. split; reflexivity. Qed.

(** The status scenario of the spec: count cells "5" and "x". *)
Example status_malformed_cell :
  total_messages (status_of malformed_sheet) = 5%Z.
Proof. reflexivity. Qed.

(** The extraction examples of the spec. *)
Example extract_kaden : _extract_kpi_values (u "架電50件") = [(u "架電", u "50件")].
Proof. reflexivity. Qed.

Example extract_uriage :
  _extract_kpi_values (u "売上: 150万円") = [(u "売上", u "150")].
Proof. reflexivity. Qed.

(** The classifier examples of the spec. *)
Example person_examples :
  extract_person_name (u "個人_田中") = Some (u "田中")
  /\ extract_person_name (u "個人_") = None
  /\ extract_person_name (u "general") = None
  /\ extract_person_name [] = None.
Proof. repeat split. Qed.

(** The ordering example of the spec. *)
Example overview_order_example :
  map (hd []) (tl (_prepare_overview_data sync_instant three_persons))
  = [u "佐藤"; u "田中"; u "鈴木"].
Proof. reflexivity. Qed.

(** ** The theorems at concrete inputs *)
(** The classifier on the name of an individual channel. *)
Lemma extract_person_name_spec_witness :
  extract_person_name (u "個人_田中") = Some (u "田中").
Proof.
  apply (proj2 (proj2 (extract_person_name_spec (u "個人_田中")))).
  - vm_compute. intuition discriminate.
  - split; [discriminate | reflexivity].
Defined.

(** Pattern 1 on a word, one space and digits. *)
Lemma pattern1_separator_witness :
  findall pattern1 (u "abc 123") = [(u "abc", u "123")].
Proof.
  apply (proj2 (pattern1_separator (u "abc 123")) (u "abc") (u " ") (u "123"));
    try reflexivity; try discriminate; vm_compute; repeat constructor.
Defined.

(** The value extracted from the spec's example occurs in it. *)
Lemma extract_kpi_values_total_witness :
  substring (u "50件") (u "架電50件").
Proof.
  apply (proj2 (extract_kpi_values_total (u "架電50件")) (u "架電") (u "50件")).
  vm_compute. left. reflexivity.
Defined.

(** A message of two spaces is dropped. *)
Lemma blank_message_dropped_witness :
  parse_kpi_message blank_message channel_A = None.
Proof.
  apply (blank_message_dropped blank_message channel_A); reflexivity.
Defined.

(** The spec's three persons come out in ascending order. *)
Lemma overview_layout_witness :
  StronglySorted str_lt
    (map (hd []) (tl (_prepare_overview_data sync_instant three_persons))).
Proof.
  apply (overview_layout sync_instant three_persons).
  vm_compute. repeat constructor; simpl; intuition discriminate.
Defined.

(** Two clock readings within one second give the same overview. *)
Lemma builders_determined_witness :
  _prepare_overview_data sync_instant three_persons
  = _prepare_overview_data (sync_instant + 250000)%Z three_persons.
Proof.
  apply (proj1 (builders_determined sync_instant (sync_instant + 250000)%Z
                  three_persons [] [] [])).
  reflexivity.
Defined.

(** The report posted in the channel "general" becomes a record of the
    person "general", and the explicit-list sync groups under that name. *)
Lemma fallback_person_name_witness :
  (exists r,
     In r (get_kpi_data_from_channel MoreSamples.team_workspace
             MoreSamples.general_channel 100)
     /\ user_name r = u "general"
     /\ text r = message_text MoreSamples.general_report)
  /\ In (u "general")
       (keys (fst (gather_channels MoreSamples.team_workspace
                     [u "general"; u "random"] 100))).
Proof.
  pose proof (fallback_person_name MoreSamples.team_workspace 100
                [u "general"; u "random"] (u "general")
                MoreSamples.general_channel eq_refl)
    as (_ & Hrec & _ & Hsync).
  split.
  - apply (Hrec MoreSamples.general_report MoreSamples.general_channel eq_refl).
    + vm_compute. left. reflexivity.
    + right. vm_compute. discriminate.
  - apply (proj2 (Hsync eq_refl)). left. reflexivity.
Defined.

(** What the explicit-list sync gathers from the channel "general". *)
Example fallback_records_example :
  fst (gather_channels MoreSamples.team_workspace [u "general"] 100)
  = [(u "general",
      [{| channel_id := u "C00";
          channel_name := u "general";
          user_name := u "general";
          timestamp := 1700000300000000%Z;
          text := u "契約: 3件";
          kpi_values := [(u "契約", u "3件")] |}])].
Proof. reflexivity. Qed.

(** The row of a person without records. *)
Lemma overview_empty_person_witness :
  In [u "田中"; u "個人_田中"; u "0"; u "-"; u "-"; strftime sync_instant]
     (tl (_prepare_overview_data sync_instant three_persons)).
Proof.
  apply (overview_empty_person sync_instant three_persons (u "田中")).
  left. reflexivity.
Defined.

(** The sample workspace, whose second individual channel fails. *)
Lemma sync_with_failed_fetch_witness :
  fst (sync_all_individual_kpi (service := memory_service []) workspace
         sync_instant 100 true [])
  = {| channels_processed := 3;
       messages_synced :=
         length (get_kpi_data_from_channel workspace channel_A 100)
         + length (get_kpi_data_from_channel workspace channel_C 100);
       errors := 0 |}.
Proof.
  refine (proj1 (proj2
    (sync_with_failed_fetch (service := memory_service []) workspace
       (fun _ _ _ => eq_refl) sync_instant 100
       channel_A channel_B channel_C (u "佐藤") (u "田中") (u "鈴木") []
       _ _ _ _ _ _ _ _)));
    try reflexivity; vm_compute; discriminate.
Defined.

(** ** Inputs on which the stated claims fail *)
(** C1 as stated fails: with the fetch of channel B failing, the run
    reports three channels processed and no error. *)
Lemma sync_counts_failed_channel :
  get_individual_channels workspace = [channel_A; channel_B; channel_C]
  /\ conversations_history workspace (id channel_B) (Z.min 100 200) = ApiError
  /\ fst (sync_all_individual_kpi (service := memory_service []) workspace
            sync_instant 100 true [])
     = {| channels_processed := 3; messages_synced := 2; errors := 0 |}.
Proof. repeat split. Qed.

(** C2 as stated fails: a name with the prefix and a further remainder
    that holds a newline is rejected, and a final newline is left out of
    the name returned. *)
Lemma newline_channel_rejected :
  is_individual_channel (INDIVIDUAL_PREFIX ++ [97; NEWLINE; 98])%N = false
  /\ extract_person_name (INDIVIDUAL_PREFIX ++ [97; NEWLINE; 98])%N = None
  /\ extract_person_name (INDIVIDUAL_PREFIX ++ [97; NEWLINE])%N = Some [97%N].
Proof. repeat split. Qed.

(** C3 as stated fails: a text without any colon yields a pair. *)
Lemma whitespace_only_separator :
  existsb (fun c => (c =? chr ":")%N || (c =? chr "：")%N) (u "abc 123") = false
  /\ findall pattern1 (u "abc 123") = [(u "abc", u "123")].
Proof. split; reflexivity. Qed.

(** C7 as stated fails: the same records give different overview tables
    at clock readings one second apart. *)
Lemma overview_depends_on_clock :
  _prepare_overview_data sync_instant three_persons
  <> _prepare_overview_data (sync_instant + 1000000)%Z three_persons.
Proof. vm_compute. discriminate. Qed.

(* ================================================================== *)
(** * Further properties of the code *)
(* ================================================================== *)

Import Main Notions MoreSamples.

(* ================================================================== *)
(** * The ingestor *)
(* ================================================================== *)

(** ** Paginated fetches *)

Lemma fetch_pages_delivered limit response : forall fetched messages,
  fetched = Z.of_nat (length messages) ->
  fetch_pages limit fetched response messages
  = messages ++ firstn (Z.to_nat (limit - fetched)) (delivered response).
Proof.
  induction response as [|items|items next IH]; intros fetched messages Hf;
    simpl; destruct (Z.ltb_spec fetched limit) as [Hlt|Hge];
    try (replace (Z.to_nat (limit - fetched)) with 0 by lia;
         simpl; rewrite app_nil_r; reflexivity).
  - rewrite firstn_nil, app_nil_r. reflexivity.
  - reflexivity.
  - set (n := Z.to_nat (limit - fetched)).
    rewrite IH by (rewrite length_app; lia).
    rewrite <- app_assoc. f_equal. rewrite firstn_app. f_equal.
    assert (Hlen : length (firstn n items) = Nat.min n (length items))
      by apply length_firstn.
    destruct (Nat.le_gt_cases n (length items)) as [Hn|Hn].
    + replace (Z.to_nat (limit - (fetched + Z.of_nat (length (firstn n items)))))
        with 0 by (rewrite Hlen; subst n; lia).
      replace (n - length items) with 0 by lia. reflexivity.
    + replace (firstn n items) with items
        by (symmetry; apply firstn_all2; lia).
      f_equal. subst n. lia.
Qed.

Lemma get_channel_messages_firstn client channel_id limit :
  get_channel_messages client channel_id limit
  = firstn (Z.to_nat limit)
      (delivered (conversations_history client channel_id (Z.min limit 200))).
Proof.
  unfold get_channel_messages. rewrite fetch_pages_delivered by reflexivity.
  simpl. rewrite Z.sub_0_r. reflexivity.
Qed.

Lemma get_channel_messages_bound client channel_id limit :
  (Z.of_nat (length (get_channel_messages client channel_id limit))
   <= Z.max 0 limit)%Z.
Proof.
  rewrite get_channel_messages_firstn.
  pose proof (firstn_le_length (Z.to_nat limit)
    (delivered (conversations_history client channel_id (Z.min limit 200)))).
  lia.
Qed.

(** [get_channel_messages] returns the first [limit] of the messages the
    history delivers before it fails, in their order; nothing is requested
    when the limit is not positive. *)
Theorem get_channel_messages_delivered client channel_id limit :
  get_channel_messages client channel_id limit
  = firstn (Z.to_nat limit)
      (delivered (conversations_history client channel_id (Z.min limit 200)))
  /\ (Z.of_nat (length (get_channel_messages client channel_id limit))
      <= Z.max 0 limit)%Z.
Proof.
  split; [apply get_channel_messages_firstn | apply get_channel_messages_bound].
Qed.

Lemma list_pages_delivered response : forall channels,
  list_pages response channels = channels ++ delivered response.
Proof.
  induction response as [|items|items next IH]; intros channels; simpl.
  - rewrite app_nil_r. reflexivity.
  - reflexivity.
  - rewrite IH, app_assoc. reflexivity.
Qed.

(** ** Records *)

Section Records.
Context {R : PyRuntime}.

Lemma parse_messages_in messages channel_info r :
  In r (parse_messages messages channel_info) ->
  exists m, In m messages /\ parse_kpi_message m channel_info = Some r.
Proof.
  induction messages as [|m messages IH]; simpl; [contradiction|].
  destruct (parse_kpi_message m channel_info) as [r'|] eqn:E.
  - intros [<- | H]; [exists m; auto|].
    destruct (IH H) as (m' & Hm & Hp). exists m'. auto.
  - intros H. destruct (IH H) as (m' & Hm & Hp). exists m'. auto.
Qed.

Lemma parse_messages_length messages channel_info :
  length (parse_messages messages channel_info) <= length messages.
Proof.
  induction messages as [|m messages IH]; simpl; auto.
  destruct (parse_kpi_message m channel_info); simpl; lia.
Qed.

Lemma parse_fields message channel_info r :
  parse_kpi_message message channel_info = Some r ->
  channel_id r = id channel_info
  /\ channel_name r = name channel_info
  /\ text r = message_text message
  /\ kpi_values r = _extract_kpi_values (text r)
  /\ timestamp r = match raw_ts message with Some t => t | None => 0%Z end
  /\ (strip (text r) <> [] \/ kpi_values r <> []).
Proof.
  unfold parse_kpi_message.
  destruct (_extract_kpi_values (message_text message)) as [|kv kvs] eqn:Ek.
  - destruct (strip (message_text message)) as [|c cs] eqn:Es; [discriminate|].
    intros [= <-]. simpl. rewrite Ek, Es. repeat split; auto.
    left. discriminate.
  - intros [= <-]. simpl. rewrite Ek. repeat split; auto.
    right. discriminate.
Qed.

(** Every record gathered from a channel comes from one of the fetched
    messages, carries the channel's id and name and that message's text,
    holds the extraction of its own text, and has a text that does not
    strip to nothing or at least one extracted value; there are at most
    [limit] records. *)
Theorem channel_records_invariant client channel_info limit r :
  In r (get_kpi_data_from_channel client channel_info limit) ->
  (exists m,
     In m (get_channel_messages client (id channel_info) limit)
     /\ text r = message_text m
     /\ timestamp r = match raw_ts m with Some t => t | None => 0%Z end)
  /\ channel_id r = id channel_info
  /\ channel_name r = name channel_info
  /\ kpi_values r = _extract_kpi_values (text r)
  /\ (strip (text r) <> [] \/ kpi_values r <> [])
  /\ (Z.of_nat (length (get_kpi_data_from_channel client channel_info limit))
      <= Z.max 0 limit)%Z.
Proof.
  unfold get_kpi_data_from_channel. intros Hin.
  apply parse_messages_in in Hin. destruct Hin as (m & Hm & Hp).
  apply parse_fields in Hp. destruct Hp as (H1 & H2 & H3 & H4 & H5 & H6).
  split; [exists m; auto|]. repeat split; auto.
  pose proof (parse_messages_length
    (get_channel_messages client (id channel_info) limit) channel_info).
  pose proof (get_channel_messages_bound client (id channel_info) limit).
  lia.
Qed.

Lemma records_user_name client channel_info limit r p :
  extract_person_name (name channel_info) = Some p ->
  In r (get_kpi_data_from_channel client channel_info limit) ->
  user_name r = p.
Proof.
  intros He Hin. unfold get_kpi_data_from_channel in Hin.
  apply parse_messages_in in Hin. destruct Hin as (m & _ & Hp).
  apply parse_user_name in Hp. rewrite Hp, He.
  apply extract_person_name_nonempty in He.
  destruct p; [congruence | reflexivity].
Qed.

End Records.

(** ** Lookups *)

Lemma dict_get_in V (d : dict V) k v : dict_get d k = Some v -> In (k, v) d.
Proof.
  induction d as [|[k0 v0] d IH]; simpl; [discriminate|].
  destruct (str_eqb k0 k) eqn:E.
  - apply str_eqb_eq in E. intros [= ->]. left. congruence.
  - auto.
Qed.

Lemma dict_get_none V (d : dict V) k : dict_get d k = None <-> ~ In k (keys d).
Proof.
  induction d as [|[k0 v0] d IH]; simpl; [tauto|].
  destruct (str_eqb k0 k) eqn:E.
  - apply str_eqb_eq in E. split; [discriminate | intros H; exfalso; auto].
  - rewrite IH. split; [|tauto].
    intros H [H' | H']; [|auto]. subst. rewrite str_eqb_refl in E. discriminate.
Qed.

Lemma dict_get_set_same V (d : dict V) k v : dict_get (dict_set d k v) k = Some v.
Proof.
  induction d as [|[k0 v0] d IH]; simpl.
  - rewrite str_eqb_refl. reflexivity.
  - destruct (str_eqb k0 k) eqn:E; simpl.
    + rewrite str_eqb_refl. reflexivity.
    + rewrite E. exact IH.
Qed.

Lemma dict_get_set_other V (d : dict V) k v k' :
  k <> k' -> dict_get (dict_set d k v) k' = dict_get d k'.
Proof.
  intros Hne. induction d as [|[k0 v0] d IH]; simpl.
  - rewrite (str_eqb_neq _ _ Hne). reflexivity.
  - destruct (str_eqb k0 k) eqn:E; simpl.
    + apply str_eqb_eq in E. subst k0. rewrite (str_eqb_neq _ _ Hne). reflexivity.
    + destruct (str_eqb k0 k'); auto.
Qed.

Lemma dict_set_keys_iff V (d : dict V) k v k0 :
  In k0 (keys (dict_set d k v)) <-> k0 = k \/ In k0 (keys d).
Proof.
  destruct (dict_set_keys V d k v) as [[-> H] | [-> H]].
  - split; [auto | intros [-> | ?]; auto].
  - rewrite in_app_iff. simpl. intuition.
Qed.

(** ** The mapping of all individual channels *)

Section Grouping.
Context {R : PyRuntime}.
Variable client : WebClient.
Variable limit : Z.

Lemma individual_fold chs : forall d,
  let d' :=
    fold_left
      (fun all_kpi_data channel =>
         match extract_person_name (name channel) with
         | Some ((_ :: _) as person_name) =>
             dict_set all_kpi_data person_name
               (get_kpi_data_from_channel client channel limit)
         | _ => all_kpi_data
         end) chs d in
  (NoDup (keys d) -> NoDup (keys d'))
  /\ (forall p, In p (keys d') <->
        In p (keys d)
        \/ exists ch, In ch chs /\ extract_person_name (name ch) = Some p)
  /\ (grouped d -> grouped d').
Proof.
  induction chs as [|ch chs IH]; intros d; cbn [fold_left].
  - repeat split; auto. intros [H | (ch & [] & _)]. exact H.
  - match goal with |- context [fold_left ?f chs ?acc] =>
      specialize (IH acc); set (step := acc) in * end.
    cbv zeta in IH. destruct IH as (IH1 & IH2 & IH3).
    assert (Hstep :
      (NoDup (keys d) -> NoDup (keys step))
      /\ (forall p, In p (keys step) <->
            In p (keys d) \/ extract_person_name (name ch) = Some p)
      /\ (grouped d -> grouped step)).
    { subst step. destruct (extract_person_name (name ch)) as [p|] eqn:E.
      - pose proof (extract_person_name_nonempty _ _ E) as Hp.
        destruct p as [|c p]; [congruence|]. repeat split.
        + apply dict_set_NoDup.
        + rewrite dict_set_keys_iff. intros [-> | H]; auto.
        + rewrite dict_set_keys_iff. intros [H | [= <-]]; auto.
        + intros Hg q recs r Hin Hr. apply dict_set_in in Hin.
          destruct Hin as [[= -> ->] | Hin]; [|eauto].
          eapply records_user_name; eauto.
      - repeat split; auto. intros [H | H]; [exact H | discriminate]. }
    destruct Hstep as (S1 & S2 & S3). repeat split; auto.
    + rewrite IH2, S2. intros [[H | H] | (ch' & Hch & H)]; auto.
      * right. exists ch. simpl. auto.
      * right. exists ch'. simpl. auto.
    + rewrite IH2, S2. intros [H | (ch' & [<- | Hch] & H)]; auto.
      right. exists ch'. auto.
Qed.

Lemma individual_kpi_data_facts :
  let data := get_all_individual_kpi_data client limit in
  NoDup (keys data)
  /\ (forall p, In p (keys data) <->
        exists ch, In ch (get_individual_channels client)
                   /\ extract_person_name (name ch) = Some p)
  /\ (forall p recs r, In (p, recs) data -> In r recs -> user_name r = p)
  /\ (forall ch, In ch (get_individual_channels client) <->
        In ch (delivered (conversations_list client true))
        /\ extract_person_name (name ch) <> None).
Proof.
  unfold get_all_individual_kpi_data.
  destruct (individual_fold (get_individual_channels client) [])
    as (H1 & H2 & H3).
  repeat split.
  - apply H1. constructor.
  - intros H. apply H2 in H. destruct H as [[] | H]. exact H.
  - intros H. apply H2. right. exact H.
  - apply H3. intros p recs r [].
  - unfold get_individual_channels, get_all_channels in H.
    apply filter_In in H. rewrite list_pages_delivered in H. tauto.
  - unfold get_individual_channels in H. apply filter_In in H.
    apply is_individual_channel_iff. tauto.
  - intros [Hin Hm]. unfold get_individual_channels, get_all_channels.
    apply filter_In. rewrite list_pages_delivered. split; [exact Hin|].
    apply is_individual_channel_iff. exact Hm.
Qed.

(** The mapping of [get_all_individual_kpi_data]: its keys are distinct
    and are exactly the person names of the individual channels, every
    record is stored under its own person name, and an individual channel
    is a listed channel whose name the classifier accepts. *)
Theorem individual_kpi_data_grouped :
  let data := get_all_individual_kpi_data client limit in
  NoDup (keys data)
  /\ (forall p, In p (keys data) <->
        exists ch, In ch (get_individual_channels client)
                   /\ extract_person_name (name ch) = Some p)
  /\ (forall p recs r, In (p, recs) data -> In r recs -> user_name r = p)
  /\ (forall ch, In ch (get_individual_channels client) <->
        In ch (delivered (conversations_list client true))
        /\ extract_person_name (name ch) <> None).
Proof. exact individual_kpi_data_facts. Qed.

(** ** The explicit-list sync *)

Lemma channel_map_of_spec chs : forall d,
  (forall k ch, In (k, ch) d -> name ch = k) ->
  let cm := fold_left (fun d ch => dict_set d (name ch) ch) chs d in
  (forall k ch, In (k, ch) cm -> name ch = k)
  /\ (forall k, In k (keys cm) <->
        In k (keys d) \/ exists ch, In ch chs /\ name ch = k).
Proof.
  induction chs as [|ch chs IH]; intros d Hd; cbn [fold_left].
  - split; auto. intros k. split; auto. intros [H | (ch & [] & _)]. exact H.
  - destruct (IH (dict_set d (name ch) ch)) as (I1 & I2).
    { intros k c Hin. apply dict_set_in in Hin.
      destruct Hin as [[= -> ->] | Hin]; auto. }
    split; [exact I1|]. intros k. rewrite I2, dict_set_keys_iff.
    split.
    + intros [[-> | H] | (c & Hc & Hn)]; auto.
      * right. exists ch. simpl. auto.
      * right. exists c. simpl. auto.
    + intros [H | (c & [<- | Hc] & Hn)]; auto. right. exists c. auto.
Qed.

Lemma channel_map_get chs n ch :
  dict_get (channel_map_of chs) n = Some ch -> name ch = n.
Proof.
  intros H. apply dict_get_in in H.
  destruct (channel_map_of_spec chs [] (fun k c (H : In (k, c) []) => match H with end))
    as (I1 & _).
  eapply I1. exact H.
Qed.

Lemma channel_map_listed chs n :
  dict_get (channel_map_of chs) n = None
  <-> existsb (fun ch => str_eqb (name ch) n) chs = false.
Proof.
  rewrite dict_get_none.
  destruct (channel_map_of_spec chs [] (fun k c (H : In (k, c) []) => match H with end))
    as (_ & I2).
  unfold channel_map_of. rewrite (I2 n). simpl.
  rewrite <- not_true_iff_false, existsb_exists.
  split; intros H.
  - intros (ch & Hch & He). apply str_eqb_eq in He. apply H. right. eauto.
  - intros [[] | (ch & Hch & He)]. apply H. exists ch. split; auto.
    apply str_eqb_eq. exact He.
Qed.

Lemma gather_step_spec cm kpi stats n :
  (forall n ch, dict_get cm n = Some ch -> name ch = n) ->
  let acc := gather_channel client cm limit (kpi, stats) n in
  (grouped kpi -> grouped (fst acc))
  /\ (NoDup (keys kpi) -> NoDup (keys (fst acc)))
  /\ messages_synced (snd acc) = messages_synced stats
  /\ errors (snd acc)
     = errors stats + (match dict_get cm n with Some _ => 0 | None => 1 end)
  /\ channels_processed (snd acc) + errors (snd acc)
     = channels_processed stats + errors stats + 1.
Proof.
  intros Hcm. unfold gather_channel.
  destruct (dict_get cm n) as [ch|] eqn:Eg; simpl; repeat split; auto; try lia.
  - intros Hg q recs r Hin Hr.
    apply dict_set_in in Hin. destruct Hin as [[= -> ->] | Hin]; [|eauto].
    unfold get_kpi_data_from_channel in Hr.
    apply parse_messages_in in Hr. destruct Hr as (m & _ & Hp).
    apply parse_user_name in Hp. rewrite Hp, (Hcm n ch Eg). reflexivity.
  - apply dict_set_NoDup.
Qed.

Lemma gather_fold_spec cm names : forall kpi stats,
  (forall n ch, dict_get cm n = Some ch -> name ch = n) ->
  let acc := fold_left (gather_channel client cm limit) names (kpi, stats) in
  (grouped kpi -> grouped (fst acc))
  /\ (NoDup (keys kpi) -> NoDup (keys (fst acc)))
  /\ messages_synced (snd acc) = messages_synced stats
  /\ errors (snd acc)
     = errors stats
       + length (filter (fun n => match dict_get cm n with
                                  | Some _ => false | None => true end) names)
  /\ channels_processed (snd acc) + errors (snd acc)
     = channels_processed stats + errors stats + length names.
Proof.
  intros kpi stats Hcm. revert kpi stats.
  induction names as [|n names IH]; intros kpi stats; cbn [fold_left].
  - simpl. repeat split; auto; lia.
  - pose proof (gather_step_spec cm kpi stats n Hcm) as Hs. cbv zeta in Hs.
    destruct (gather_channel client cm limit (kpi, stats) n) as [k1 s1].
    simpl in Hs. destruct Hs as (S1 & S2 & S3 & S4 & S5).
    specialize (IH k1 s1). cbv zeta in IH.
    destruct IH as (I1 & I2 & I3 & I4 & I5).
    cbn [filter]. repeat split; auto; try lia.
    + destruct (dict_get cm n); simpl; lia.
    + simpl. lia.
Qed.

End Grouping.

(** ** Counters of a run, whatever the sheets service does *)

Lemma fold_left_records (d : dict (list KPIMessage)) : forall a,
  fold_left (fun n item => n + length (snd item)) d a = a + total_records d.
Proof.
  induction d as [|item d IH]; intros a; simpl; [lia|].
  rewrite IH. lia.
Qed.

Section Counters.
Context {R : PyRuntime} {S : Type} {service : SheetsService S}.
Variable client : WebClient.

Lemma fst_bind_any (A B : Type) (c : M S A) (k : A -> M S B) s :
  fst (bind c k s) = fst (k (fst (c s)) (snd (c s))).
Proof. unfold bind. destruct (c s). reflexivity. Qed.

(** An explicit-list sync counts every requested name once, as processed
    when a listed channel has that name and as an error otherwise;
    [messages_synced] is the number of records gathered, whatever the
    sheet writes do; the records are stored under their own person. *)
Theorem sync_specific_counts now names limit s :
  let gathered := fst (gather_channels client names limit) in
  let stats := fst (sync_specific_channels client now names limit s) in
  errors stats
  = length (filter (fun n => negb (existsb (fun ch => str_eqb (name ch) n)
                                     (get_all_channels client true))) names)
  /\ channels_processed stats + errors stats = length names
  /\ messages_synced stats = total_records gathered
  /\ grouped gathered
  /\ NoDup (keys gathered).
Proof.
  unfold sync_specific_channels, gather_channels.
  pose proof (gather_fold_spec client limit
                (channel_map_of (get_all_channels client true)) names []
                {| channels_processed := 0; messages_synced := 0; errors := 0 |}
                (channel_map_get (get_all_channels client true))) as H.
  cbv zeta in H.
  destruct (fold_left _ names _) as [kpi st]. simpl in H.
  destruct H as (H1 & H2 & H3 & H4 & H5).
  assert (Hf : length (filter (fun n => match dict_get (channel_map_of
                   (get_all_channels client true)) n with
                   | Some _ => false | None => true end) names)
               = length (filter (fun n => negb (existsb
                   (fun ch => str_eqb (name ch) n)
                   (get_all_channels client true))) names)).
  { f_equal. apply filter_ext. intros n.
    destruct (dict_get _ n) eqn:E.
    - destruct (existsb _ _) eqn:E'; auto.
      apply channel_map_listed in E'. congruence.
    - apply channel_map_listed in E. rewrite E. reflexivity. }
  assert (Hg : grouped kpi) by (apply H1; intros p recs r []).
  assert (Hn : NoDup (keys kpi)) by (apply H2; constructor).
  destruct kpi as [|item kpi]; cbv zeta.
  - simpl. repeat split; auto; lia.
  - rewrite fst_bind_any, fst_bind_any. cbn [fst ret channels_processed
      messages_synced errors]. rewrite fold_left_records.
    repeat split; auto; lia.
Qed.

Lemma write_detail_sheet_step stats item s :
  let stats' := fst (write_detail_sheet stats item s) in
  channels_processed stats' = channels_processed stats
  /\ (messages_synced stats' = messages_synced stats + length (snd item)
      /\ errors stats' = errors stats
      \/ messages_synced stats' = messages_synced stats
         /\ errors stats' = errors stats + 1
         /\ snd item <> []).
Proof.
  destruct item as [person messages]. unfold write_detail_sheet.
  destruct messages as [|m ms].
  - simpl. split; [reflexivity|]. left. split; lia.
  - cbv zeta. rewrite fst_bind_any, fst_bind_any.
    destruct (fst (write_data _ _ _ _)); simpl.
    + split; [reflexivity|]. left. split; reflexivity.
    + split; [reflexivity|]. right. repeat split; discriminate.
Qed.

Lemma for_each_details_step items : forall stats s,
  let stats' := fst (for_each items write_detail_sheet stats s) in
  channels_processed stats' = channels_processed stats
  /\ errors stats <= errors stats'
  /\ errors stats' <= errors stats + length (with_records items)
  /\ messages_synced stats' + (errors stats' - errors stats)
     <= messages_synced stats + total_records items
  /\ (errors stats' = errors stats ->
      messages_synced stats' = messages_synced stats + total_records items).
Proof.
  induction items as [|item items IH]; intros stats s; cbn [for_each].
  - simpl. repeat split; auto; lia.
  - cbv zeta. rewrite fst_bind_any.
    pose proof (write_detail_sheet_step stats item s) as Hs. cbv zeta in Hs.
    set (s1 := fst (write_detail_sheet stats item s)) in *.
    specialize (IH s1 (snd (write_detail_sheet stats item s))). cbv zeta in IH.
    set (s2 := fst (for_each items write_detail_sheet s1 _)) in *.
    destruct IH as (I1 & I2 & I3 & I4 & I5).
    destruct Hs as (S1 & [(S2 & S3) | (S2 & S3 & S4)]).
    + assert (length (with_records (item :: items))
              >= length (with_records items))
        by (unfold with_records; simpl; destruct (snd item); simpl; lia).
      simpl total_records. repeat split; try lia.
    + assert (length (with_records (item :: items))
              = Datatypes.S (length (with_records items)))
        by (unfold with_records; simpl; destruct (snd item);
            [congruence | reflexivity]).
      assert (length (snd item) >= 1)
        by (destruct (snd item); [congruence | simpl; lia]).
      simpl total_records. repeat split; try lia.
Qed.

Lemma sync_all_counters now limit details s :
  let data := get_all_individual_kpi_data client limit in
  let stats := fst (sync_all_individual_kpi client now limit details s) in
  (channels_processed stats = 0 \/ channels_processed stats = length data)
  /\ errors stats <= length (with_records data)
  /\ messages_synced stats + errors stats <= total_records data
  /\ (details = true ->
      (errors stats = 0 <-> messages_synced stats = total_records data))
  /\ (details = false -> messages_synced stats = 0 /\ errors stats = 0).
Proof.
  unfold sync_all_individual_kpi.
  destruct (get_all_individual_kpi_data client limit) as [|item data] eqn:Ed;
    cbv zeta.
  - simpl. repeat split; auto; lia.
  - rewrite fst_bind_any, fst_bind_any.
    set (s1 := snd (write_data _ _ _ _)).
    set (ok := fst (write_data _ _ _ _)).
    set (st := if ok then _ else _).
    assert (Hst : (channels_processed st = 0
                   \/ channels_processed st = length (item :: data))
                  /\ messages_synced st = 0 /\ errors st = 0)
      by (subst st; destruct ok; simpl; auto).
    destruct Hst as (Hc & Hm & He).
    destruct details.
    + pose proof (for_each_details_step (item :: data) st s1) as H.
      cbv zeta in H. destruct H as (F1 & F2 & F3 & F4 & F5).
      rewrite F1. repeat split; auto; try lia; try discriminate.
    + simpl. repeat split; auto; try lia; try discriminate.
Qed.

(** The counters of [sync_all_individual_kpi] under any behaviour of the
    sheets service: [channels_processed] is 0 or the number of persons;
    each person with records adds its records to [messages_synced] or 1
    to [errors]; no error is counted exactly when every record is synced;
    and without detail sheets both counters stay 0, also when the
    overview write fails. *)
Theorem sync_all_counts now limit details s :
  let data := get_all_individual_kpi_data client limit in
  let stats := fst (sync_all_individual_kpi client now limit details s) in
  (channels_processed stats = 0 \/ channels_processed stats = length data)
  /\ errors stats <= length (with_records data)
  /\ messages_synced stats + errors stats <= total_records data
  /\ (details = true ->
      (errors stats = 0 <-> messages_synced stats = total_records data))
  /\ (details = false -> messages_synced stats = 0 /\ errors stats = 0).
Proof. apply sync_all_counters. Qed.

(** The exit code of the sync command is 0 or 1; it is 0 exactly when no
    detail-sheet write was counted as failed, and always 0 with
    --no-details. *)
Theorem cmd_sync_exit_code now limit no_details s :
  let stats :=
    fst (sync_all_individual_kpi client now limit (negb no_details) s) in
  let code := fst (cmd_sync client now limit no_details s) in
  (code = 0%Z \/ code = 1%Z)
  /\ (code = 0%Z <-> errors stats = 0)
  /\ (code = 0%Z <->
      messages_synced stats
      = if no_details then 0
        else total_records (get_all_individual_kpi_data client limit))
  /\ (no_details = true -> code = 0%Z).
Proof.
  cbv zeta. unfold cmd_sync. rewrite fst_bind_any. cbn [fst ret].
  pose proof (sync_all_counters now limit (negb no_details) s) as H.
  cbv zeta in H. destruct H as (_ & _ & _ & Ht & Hf).
  set (stats := fst (sync_all_individual_kpi client now limit
                       (negb no_details) s)) in *.
  assert (Hcode : (if errors stats =? 0 then 0%Z else 1%Z) = 0%Z
                  <-> errors stats = 0).
  { destruct (Nat.eqb_spec (errors stats) 0); split; auto; try discriminate.
    contradiction. }
  repeat split.
  - destruct (errors stats =? 0); auto.
  - apply Hcode.
  - apply Hcode.
  - rewrite Hcode. destruct no_details; simpl in *.
    + intros _. apply Hf. reflexivity.
    + apply Ht. reflexivity.
  - intros H. apply Hcode. destruct no_details; simpl in *.
    + apply Hf. reflexivity.
    + apply Ht; auto.
  - intros ->. apply Hcode. apply Hf. reflexivity.
Qed.

End Counters.

(* ================================================================== *)
(** * More on the tables *)
(* ================================================================== *)

(** ** Stability of [sorted] *)

Section Stable.
Variables (A : Type) (leb : A -> A -> bool) (P : A -> bool).
Hypothesis P_tied : forall x y, P x = true -> P y = true -> leb x y = true.

Lemma insert_sorted_filter x l :
  filter P (insert_sorted leb x l)
  = if P x then x :: filter P l else filter P l.
Proof.
  induction l as [|y l IH]; simpl; [reflexivity|].
  destruct (leb x y) eqn:E; simpl; [reflexivity|].
  rewrite IH. destruct (P x) eqn:Px, (P y) eqn:Py; try reflexivity.
  rewrite (P_tied x y Px Py) in E. discriminate.
Qed.

Lemma sorted_filter l : filter P (sorted leb l) = filter P l.
Proof.
  induction l as [|x l IH]; simpl; [reflexivity|].
  rewrite insert_sorted_filter, IH. reflexivity.
Qed.

End Stable.

Lemma StronglySorted_impl (A : Type) (RA RB : A -> A -> Prop) l :
  (forall x y, RA x y -> RB x y) ->
  StronglySorted RA l -> StronglySorted RB l.
Proof.
  intros H. induction 1 as [|x l Hl IH Hx]; constructor; auto.
  eapply Forall_impl; [|exact Hx]. intros y. apply H.
Qed.

Section Tables.
Context {R : PyRuntime}.

(** ** The detail table *)

Lemma detail_row_length msg : length (detail_row msg) = 3.
Proof. reflexivity. Qed.

(** The detail table is the header followed by one three-cell row per
    record; the records are listed newest first, and records with the
    same timestamp keep the order they came in. *)
Theorem detail_layout person_name messages :
  let table := _prepare_detail_data person_name messages in
  nth_error table 0 = Some detail_headers
  /\ Forall (fun row => length row = 3) table
  /\ tl table = map detail_row (newest_first messages)
  /\ Permutation (newest_first messages) messages
  /\ StronglySorted (fun a b => (timestamp b <= timestamp a)%Z)
       (newest_first messages)
  /\ forall t, filter (fun m => (timestamp m =? t)%Z) (newest_first messages)
               = filter (fun m => (timestamp m =? t)%Z) messages.
Proof.
  cbv zeta. unfold _prepare_detail_data, newest_first. repeat split.
  - constructor; [reflexivity|]. rewrite Forall_forall.
    intros row Hrow. apply in_map_iff in Hrow.
    destruct Hrow as (m & <- & _). reflexivity.
  - apply sorted_perm.
  - eapply StronglySorted_impl; [|apply sorted_StronglySorted].
    + intros x y H. unfold holds in H. apply Z.leb_le. exact H.
    + intros x y H. apply Z.leb_le. apply Z.leb_gt in H. lia.
    + intros x y z H1 H2. apply Z.leb_le in H1, H2. apply Z.leb_le. lia.
  - intros t. apply sorted_filter. intros x y Hx Hy.
    apply Z.eqb_eq in Hx, Hy. apply Z.leb_le. lia.
Qed.

(** ** The latest message *)

Lemma max_by_timestamp_first others : forall best,
  exists pre post,
    best :: others = pre ++ max_by_timestamp best others :: post
    /\ (forall m, In m pre ->
          (timestamp m < timestamp (max_by_timestamp best others))%Z)
    /\ (forall m, In m post ->
          (timestamp m <= timestamp (max_by_timestamp best others))%Z).
Proof.
  induction others as [|m rest IH]; intros best; simpl.
  - exists [], []. repeat split; simpl; tauto.
  - destruct (Z.ltb_spec (timestamp best) (timestamp m)) as [Hlt|Hge].
    + destruct (IH m) as (pre & post & E & Hpre & Hpost).
      exists (best :: pre), post.
      split; [simpl; f_equal; exact E|]. split; [|exact Hpost].
      intros x [<- | Hx]; [|auto].
      assert (Hm : In m (pre ++ max_by_timestamp m rest :: post))
        by (rewrite <- E; left; reflexivity).
      apply in_app_or in Hm. destruct Hm as [Hm | [Hm | Hm]].
      * apply Hpre in Hm. lia.
      * rewrite Hm. exact Hlt.
      * apply Hpost in Hm. lia.
    + destruct (IH best) as (pre & post & E & Hpre & Hpost).
      destruct pre as [|b pre].
      * simpl in E. injection E as E1 E2.
        exists [], (m :: rest).
        split; [simpl; f_equal; exact E1|]. split; [intros x []|].
        intros x [<- | Hx]; [rewrite <- E1; lia|]. apply Hpost.
        rewrite <- E2. exact Hx.
      * simpl in E. injection E as E1 E2. subst b.
        exists (best :: m :: pre), post.
        split; [simpl; do 2 f_equal; exact E2|]. split; [|exact Hpost].
        intros x [<- | [<- | Hx]].
        -- apply Hpre. left. reflexivity.
        -- assert (timestamp best
                   < timestamp (max_by_timestamp best rest))%Z
             by (apply Hpre; left; reflexivity). lia.
        -- apply Hpre. right. exact Hx.
Qed.

(** The overview row of a person with records shows the first of the
    records with the greatest timestamp: every record before it is
    strictly older, none after it is newer; its time is formatted and its
    text shown whole up to 200 characters, cut to 200 and followed by
    three dots beyond. *)
Theorem overview_latest sync_time person first others :
  let latest := max_by_timestamp first others in
  overview_row sync_time (person, first :: others)
  = [person; INDIVIDUAL_PREFIX ++ person;
     str_of_nat (length (first :: others));
     strftime (timestamp latest); shown_text (text latest); sync_time]
  /\ exists pre post,
       first :: others = pre ++ latest :: post
       /\ (forall m, In m pre -> (timestamp m < timestamp latest)%Z)
       /\ (forall m, In m post -> (timestamp m <= timestamp latest)%Z).
Proof.
  split; [reflexivity|]. apply max_by_timestamp_first.
Qed.

Lemma shown_text_length t : length (shown_text t) <= 203.
Proof.
  unfold shown_text. destruct (Nat.ltb_spec 200 (length t)); [|lia].
  rewrite length_app, length_firstn. change (length (u "...")) with 3. lia.
Qed.

(** The latest-text cell of an overview row never holds more than 203
    characters, and it starts with the first 200 characters of the
    message it shows. *)
Theorem overview_text_bounded sync_time item :
  exists cell,
    nth_error (overview_row sync_time item) 4 = Some cell
    /\ length cell <= 203
    /\ (forall first others, snd item = first :: others ->
          firstn 200 cell
          = firstn 200 (text (max_by_timestamp first others))).
Proof.
  destruct item as [person [|first others]].
  - exists (u "-"). repeat split; [simpl; lia|]. discriminate.
  - exists (shown_text (text (max_by_timestamp first others))).
    repeat split; [apply shown_text_length|].
    intros f o [= <- <-]. unfold shown_text.
    destruct (Nat.ltb_spec 200 (length (text (max_by_timestamp first others))));
      [|reflexivity].
    rewrite firstn_app, firstn_firstn, length_firstn.
    replace (200 - Nat.min 200 _) with 0 by lia.
    rewrite Nat.min_id. simpl. apply app_nil_r.
Qed.

End Tables.

(** ** Counts written and read back *)

Lemma size_nat_bound n : (n < 2 ^ N.of_nat (N.size_nat n))%N.
Proof.
  destruct n as [|p]; simpl; [reflexivity|].
  induction p as [p IH|p IH|]; cbn [Pos.size_nat].
  - rewrite Nat2N.inj_succ, N.pow_succ_r'. lia.
  - rewrite Nat2N.inj_succ, N.pow_succ_r'. lia.
  - reflexivity.
Qed.

Lemma pow_2_10 k : (2 ^ k <= 10 ^ k)%N.
Proof. apply N.pow_le_mono_l. lia. Qed.

Section Counts.
Context {R : PyRuntime}.
Hypothesis digits : ascii_digits_known.

Lemma decimal_digits_spec fuel : forall n acc,
  (n < 10 ^ N.of_nat fuel)%N -> fuel <> 0 ->
  exists ds,
    decimal_digits fuel n acc = ds ++ acc
    /\ ds <> []
    /\ forallb isdigit ds = true
    /\ forall rest a,
         int_acc (ds ++ rest) a
         = int_acc rest (a * 10 ^ N.of_nat (length ds) + n)%N.
Proof.
  induction fuel as [|fuel IH]; intros n acc Hn Hf; [congruence|].
  cbn [decimal_digits]. destruct (N.ltb_spec n 10) as [Hlt|Hge].
  - rewrite N.mod_small by exact Hlt.
    destruct (digits n Hlt) as [Hv Hd].
    exists [(48 + n)%N]. split; [reflexivity|]. split; [discriminate|]. split.
    + cbn [forallb]. rewrite Hd. reflexivity.
    + intros rest a. cbn [app int_acc length]. rewrite Hv. reflexivity.
  - assert (Hmod : (n mod 10 < 10)%N) by (apply N.mod_lt; lia).
    destruct (digits _ Hmod) as [Hv Hd].
    rewrite Nat2N.inj_succ, N.pow_succ_r' in Hn.
    assert (Hdiv : (n / 10 < 10 ^ N.of_nat fuel)%N)
      by (apply N.Div0.div_lt_upper_bound; lia).
    assert (Hfuel : fuel <> 0)
      by (intros ->; simpl in Hdiv;
          assert (n / 10 = 0)%N by lia;
          apply N.div_small_iff in H; lia).
    destruct (IH (n / 10)%N ((48 + n mod 10)%N :: acc) Hdiv Hfuel)
      as (ds & E & Hne & Hall & Hint).
    exists (ds ++ [(48 + n mod 10)%N]).
    split; [rewrite E, <- app_assoc; reflexivity|].
    split; [destruct ds; discriminate|]. split.
    + rewrite forallb_app, Hall. cbn [forallb andb]. rewrite Hd. reflexivity.
    + intros rest a. rewrite <- app_assoc, Hint. cbn [app int_acc].
      rewrite Hv.
      f_equal. rewrite length_app, Nat2N.inj_add. cbn [length].
      rewrite N.pow_add_r. change (10 ^ N.of_nat 1)%N with 10%N.
      pose proof (N.div_mod n 10). lia.
Qed.

Lemma str_of_nat_read n :
  str_isdigit (str_of_nat n) = true
  /\ int (str_of_nat n) = Some (Z.of_nat n).
Proof.
  unfold str_of_nat, str_of_N.
  destruct (decimal_digits_spec (Datatypes.S (N.size_nat (N.of_nat n)))
              (N.of_nat n) []) as (ds & E & Hne & Hall & Hint).
  - rewrite Nat2N.inj_succ, N.pow_succ_r'.
    pose proof (size_nat_bound (N.of_nat n)).
    pose proof (pow_2_10 (N.of_nat (N.size_nat (N.of_nat n)))). lia.
  - discriminate.
  - rewrite E, app_nil_r. split.
    + unfold str_isdigit. destruct ds; [congruence | exact Hall].
    + unfold int. destruct ds as [|c ds]; [congruence|].
      specialize (Hint [] 0%N). rewrite app_nil_r in Hint. rewrite Hint.
      simpl. f_equal. lia.
Qed.

Lemma overview_row_count st item :
  nth_error (overview_row st item) 2
  = Some (str_of_nat (length (snd item))).
Proof. destruct item as [p [|m ms]]; reflexivity. Qed.

Lemma sum_overview_rows st items :
  sum_message_counts (map (overview_row st) items)
  = Some (Z.of_nat (total_records items)).
Proof.
  induction items as [|item items IH]; [reflexivity|].
  cbn [map sum_message_counts]. rewrite overview_row_count.
  destruct (str_of_nat_read (length (snd item))) as [-> ->].
  rewrite IH. simpl total_records. f_equal. lia.
Qed.

Lemma total_records_perm d d' :
  Permutation d d' -> total_records d = total_records d'.
Proof.
  induction 1; simpl; lia.
Qed.

(** Reading the status from a table the overview builder made gives back
    what was written: the sync time of the build, the number of persons,
    and the total number of records. *)
Theorem status_reads_overview now d :
  status_of (_prepare_overview_data now d)
  = {| last_sync := match d with [] => None | _ => Some (strftime now) end;
       channels_synced := length d;
       total_messages := Z.of_nat (total_records d) |}.
Proof.
  unfold _prepare_overview_data.
  pose proof (sorted_items_perm d) as Hp.
  rewrite <- (total_records_perm _ _ Hp).
  rewrite <- (Permutation_length Hp).
  assert (Hd : match d with [] => None | _ => Some (strftime now) end
               = match sorted_items d with
                 | [] => None | _ => Some (strftime now) end).
  { destruct d; destruct (sorted_items _) eqn:E; auto;
      apply Permutation_length in Hp; simpl in Hp; lia. }
  rewrite Hd. clear Hd Hp.
  destruct (sorted_items d) as [|item items]; [reflexivity|].
  unfold status_of. cbn [map tl].
  change (overview_row (strftime now) item
          :: map (overview_row (strftime now)) items)
    with (map (overview_row (strftime now)) (item :: items)).
  rewrite sum_overview_rows. cbn [map].
  rewrite overview_row_length, overview_row_sync_time. simpl.
  rewrite length_map. reflexivity.
Qed.

End Counts.

(* ================================================================== *)
(** * More on the extractor *)
(* ================================================================== *)

Lemma Matches_opt_inv r s s' :
  Matches (Opt r) s s' -> s' = s \/ Matches r s s'.
Proof. inversion 1; subst; auto. Qed.

Lemma Matches_alt_inv r1 r2 s s' :
  Matches (Alt r1 r2) s s' -> Matches r1 s s' \/ Matches r2 s s'.
Proof. inversion 1; subst; auto. Qed.

Lemma Matches_lit_chr c s s' :
  Matches (lit c) s s' ->
  rest s = c :: rest s' /\ pos s' = Datatypes.S (pos s) /\ caps s' = caps s.
Proof.
  intros H. apply Matches_chr in H. destruct H as (c' & Hc & E & P & C).
  apply N.eqb_eq in Hc. subst c'. auto.
Qed.

Section Values.
Context {R : PyRuntime}.

(** ** The shape of a value *)

Lemma Matches_unit s s' :
  Matches unit_suffix s s' ->
  exists c, In c UNITS /\ rest s = c :: rest s'
            /\ pos s' = Datatypes.S (pos s).
Proof.
  unfold unit_suffix, UNITS. intros H.
  repeat (apply Matches_alt_inv in H; destruct H as [H | H]);
    apply Matches_lit_chr in H; destruct H as (E & P & _);
    eexists; (split; [|split; [exact E | exact P]]); simpl; auto 6.
Qed.

Lemma Matches_number s s' :
  Matches number s s' ->
  exists v, rest s = v ++ rest s' /\ pos s' = pos s + length v
            /\ number_shaped v.
Proof.
  unfold number, digit. intros H.
  apply Matches_seq_inv in H. destruct H as (s1 & Hd & H).
  apply Matches_plus_chr in Hd. destruct Hd as (ds & Hds & E1 & F1 & P1 & _).
  apply Matches_seq_inv in H. destruct H as (s2 & Hf & Hu).
  assert (Hfrac : exists frac,
            rest s1 = frac ++ rest s2 /\ pos s2 = pos s1 + length frac
            /\ (frac = [] \/
                exists fs, frac = chr "." :: fs /\ fs <> []
                           /\ Forall (fun c => isdecimal c = true) fs)).
  { apply Matches_opt_inv in Hf. destruct Hf as [-> | Hf].
    - exists []. simpl. repeat split; auto.
    - apply Matches_seq_inv in Hf. destruct Hf as (s1' & Hdot & Hfs).
      apply Matches_lit_chr in Hdot. destruct Hdot as (Ed & Pd & _).
      apply Matches_plus_chr in Hfs.
      destruct Hfs as (fs & Hfs & E2 & F2 & P2 & _).
      exists (chr "." :: fs). rewrite Ed, E2, P2, Pd. simpl.
      repeat split; auto; try lia. right. exists fs. auto. }
  destruct Hfrac as (frac & E2 & P2 & Hfrac).
  assert (Hunit : exists unit,
            rest s2 = unit ++ rest s' /\ pos s' = pos s2 + length unit
            /\ (unit = [] \/ exists c, unit = [c] /\ In c UNITS)).
  { apply Matches_opt_inv in Hu. destruct Hu as [-> | Hu].
    - exists []. simpl. repeat split; auto.
    - apply Matches_unit in Hu. destruct Hu as (c & Hc & E & P).
      exists [c]. rewrite E, P. simpl. repeat split; auto; try lia.
      right. exists c. auto. }
  destruct Hunit as (unit & E3 & P3 & Hunit).
  exists (ds ++ frac ++ unit). rewrite E1, E2, E3, P3, P2, P1.
  rewrite !length_app, <- !app_assoc. repeat split; try lia.
  exists ds, frac, unit. auto.
Qed.

Lemma value_group text r : forall s m,
  ends_with_value r ->
  Matches r s m ->
  (exists pre, text = pre ++ rest s /\ pos s = length pre) ->
  number_shaped (group text m 2).
Proof.
  induction r; intros s m He Hm Hwf; simpl in He; try contradiction.
  - apply Matches_seq_inv in Hm. destruct Hm as (s1 & H1 & H2).
    apply (IHr2 s1 m He H2).
    destruct Hwf as (pre & Et & Ep).
    apply Matches_consumes in H1. destruct H1 as (a & Ea & Pa).
    exists (pre ++ a). rewrite <- app_assoc, <- Ea, length_app. split; [exact Et | lia].
  - destruct n as [|[|[|n]]]; try contradiction. subst r.
    apply Matches_group_inv in Hm. destruct Hm as (s' & Hn & ->).
    apply Matches_number in Hn. destruct Hn as (v & Ev & Pv & Hv).
    destruct Hwf as (pre & Et & Ep).
    unfold group. cbn [caps span Nat.eqb]. rewrite Pv, Ep, Et, Ev.
    rewrite slice_app. exact Hv.
Qed.

Lemma findall_value_shaped r t k v :
  ends_with_value r -> In (k, v) (findall r t) -> number_shaped v.
Proof.
  intros He. unfold findall. rewrite in_map_iff.
  intros (m & [= _ <-] & Hin).
  apply (scan_sound r t _ _ _ []) in Hin; auto.
  destruct Hin as (pre0 & t0 & Ht & Hrun).
  apply run_sound in Hrun. destruct Hrun as (m' & Hm & [= ->]).
  eapply value_group; eauto.
Qed.

Lemma patterns_end_with_value r : In r patterns -> ends_with_value r.
Proof.
  intros [<- | [<- | [<- | []]]]; reflexivity.
Qed.

(** ** Values are kept as they stand *)

Lemma lstrip_kept c s : isspace c = false -> lstrip (c :: s) = c :: s.
Proof. intros H. simpl. rewrite H. reflexivity. Qed.

Lemma rstrip_kept c s : isspace c = false -> rstrip (s ++ [c]) = s ++ [c].
Proof.
  intros H. unfold rstrip. rewrite rev_app_distr. simpl. rewrite H.
  simpl. rewrite rev_involutive. reflexivity.
Qed.

Lemma number_shaped_ends v :
  values_not_blank -> number_shaped v ->
  (exists c s, v = c :: s /\ isspace c = false)
  /\ (exists c s, v = s ++ [c] /\ isspace c = false).
Proof.
  intros [Hd Hu] (ds & frac & unit & -> & Hds & Fds & Hfrac & Hunit).
  split.
  - destruct ds as [|c ds]; [congruence|]. inversion Fds; subst.
    exists c, (ds ++ frac ++ unit). auto.
  - destruct Hunit as [-> | (c & -> & Hc)].
    + rewrite app_nil_r. destruct Hfrac as [-> | (fs & -> & Hfs & Ffs)].
      * rewrite app_nil_r.
        destruct (exists_last Hds) as (s & c & ->).
        exists c, s. split; auto. apply Hd.
        rewrite Forall_app in Fds. destruct Fds as [_ F]. inversion F; auto.
      * destruct (exists_last Hfs) as (s & c & ->).
        exists c, (ds ++ chr "." :: s). split.
        -- rewrite <- app_assoc. reflexivity.
        -- apply Hd. rewrite Forall_app in Ffs. destruct Ffs as [_ F].
           inversion F; auto.
    + exists c, (ds ++ frac). split; [rewrite app_assoc; reflexivity | auto].
Qed.

Lemma strip_number v :
  values_not_blank -> number_shaped v -> strip v = v.
Proof.
  intros Hnb Hv. destruct (number_shaped_ends v Hnb Hv)
    as ((c & s & E1 & H1) & (c' & s' & E2 & H2)).
  unfold strip. rewrite E1, (lstrip_kept c s H1), <- E1, E2.
  apply rstrip_kept. exact H2.
Qed.

(** Every value in the mapping is a number as the patterns spell it:
    decimal digits, optionally a dot and more digits, optionally one of
    the five unit characters; and it occurs in the text as it stands. *)
Theorem extracted_values_are_numbers t k v :
  values_not_blank ->
  In (k, v) (_extract_kpi_values t) ->
  number_shaped v /\ substring v t.
Proof.
  intros Hnb Hin. split; [|apply (extract_kpi_values_substrings t k v Hin)].
  set (Q := fun kv : str * str => number_shaped (snd kv)).
  assert (Hfind : forall r, In r patterns ->
            forall m, In m (findall r t) -> Q (strip (fst m), strip (snd m))).
  { intros r Hr [a b] Hm. unfold Q. simpl.
    apply (findall_value_shaped r t a b (patterns_end_with_value r Hr)) in Hm.
    rewrite (strip_number b Hnb Hm). exact Hm. }
  change (Q (k, v)). revert Hin.
  unfold _extract_kpi_values, patterns. simpl fold_left.
  apply store_matches_inv; [|apply Hfind; simpl; auto].
  apply store_matches_inv; [|apply Hfind; simpl; auto].
  apply store_matches_inv; [|apply Hfind; simpl; auto].
  intros kv [].
Qed.

End Values.

Section Patterns.
Context {R : PyRuntime}.

(** ** Pattern 2 *)

Lemma pattern2_shape p0 t0 m :
  run pattern2 (mk_state p0 t0 []) Some = Some m ->
  exists a ws c,
    t0 = [chr "【"] ++ a ++ [chr "】"] ++ ws ++ c ++ rest m
    /\ a <> [] /\ ~ In (chr "】") a
    /\ Forall (fun x => isspace x = true) ws
    /\ caps m = [(2, (p0 + 1 + length a + 1 + length ws,
                      p0 + 1 + length a + 1 + length ws + length c));
                 (1, (p0 + 1, p0 + 1 + length a))].
Proof.
  intros H. apply run_sound in H. destruct H as (m' & H & [= ->]).
  unfold pattern2 in H.
  apply Matches_seq_inv in H. destruct H as (s1 & Ho & H).
  apply Matches_lit_chr in Ho. cbn [pos rest caps] in Ho.
  destruct Ho as (Eo & Po & Co).
  apply Matches_seq_inv in H. destruct H as (s2 & Hg & H).
  apply Matches_group_inv in Hg. destruct Hg as (s2' & Hl & ->).
  apply Matches_plus_chr in Hl. destruct Hl as (a & Ha & Ea & Fa & Pa & Ca).
  apply Matches_seq_inv in H. destruct H as (s3 & Hc & H).
  apply Matches_lit_chr in Hc. cbn [pos rest caps] in Hc.
  destruct Hc as (Ec & Pc & Cc).
  apply Matches_seq_inv in H. destruct H as (s4 & Hw & Hg2).
  apply Matches_star_chr in Hw. destruct Hw as (ws & Ew & Fw & Pw & Cw).
  apply Matches_group_inv in Hg2. destruct Hg2 as (s5 & Hn & ->).
  pose proof (Matches_groupless _ _ _ Hn groupless_number) as Cn.
  apply Matches_consumes in Hn. destruct Hn as (c & En & Pn).
  exists a, ws, c. cbn [pos rest caps].
  rewrite Cn, Cw, Cc, Ca, Co, Pn, Pw, Pc, Pa, Po, Eo, Ea, Ec, Ew, En.
  repeat split; auto.
  - intros Hin. rewrite Forall_forall in Fa. apply Fa in Hin.
    rewrite N.eqb_refl in Hin. discriminate.
  - repeat match goal with
           | |- _ :: _ = _ :: _ => f_equal
           | |- (_, _) = (_, _) => f_equal
           end; lia.
Qed.

(** A pair found by pattern 2 is a non-empty label without a closing
    bracket, enclosed in the full-width brackets, followed by whitespace
    or nothing and then by the value. *)
Theorem pattern2_bracketed t label value :
  In (label, value) (findall pattern2 t) ->
  exists pre ws post,
    t = pre ++ [chr "【"] ++ label ++ [chr "】"] ++ ws ++ value ++ post
    /\ label <> [] /\ ~ In (chr "】") label
    /\ Forall (fun x => isspace x = true) ws.
Proof.
  unfold findall. rewrite in_map_iff. intros (m & Hm & Hin).
  apply (scan_sound pattern2 t _ _ _ []) in Hin; auto.
  destruct Hin as (pre0 & t0 & Ht & Hrun).
  apply pattern2_shape in Hrun.
  destruct Hrun as (a & ws & c & Et & Ha & Ha' & Fw & Hc).
  assert (Eg1 : group t m 1 = a).
  { unfold group. rewrite Hc. cbn [span Nat.eqb]. rewrite Ht, Et.
    replace (pre0 ++ [chr "【"] ++ a ++ [chr "】"] ++ ws ++ c ++ rest m)
      with ((pre0 ++ [chr "【"]) ++ a ++ [chr "】"] ++ ws ++ c ++ rest m)
      by (rewrite <- !app_assoc; reflexivity).
    replace (length pre0 + 1) with (length (pre0 ++ [chr "【"]))
      by (rewrite length_app; reflexivity).
    apply slice_app. }
  assert (Eg2 : group t m 2 = c).
  { unfold group. rewrite Hc. cbn [span Nat.eqb]. rewrite Ht, Et.
    replace (pre0 ++ [chr "【"] ++ a ++ [chr "】"] ++ ws ++ c ++ rest m)
      with ((pre0 ++ [chr "【"] ++ a ++ [chr "】"] ++ ws) ++ c ++ rest m)
      by (rewrite <- !app_assoc; reflexivity).
    replace (length pre0 + 1 + length a + 1 + length ws)
      with (length (pre0 ++ [chr "【"] ++ a ++ [chr "】"] ++ ws))
      by (rewrite !length_app; simpl; lia).
    apply slice_app. }
  rewrite Eg1, Eg2 in Hm. injection Hm as <- <-.
  exists pre0, ws, (rest m). rewrite Ht, Et. auto.
Qed.

(** ** Pattern 3 *)

Lemma Matches_keyword s s' :
  Matches keyword s s' ->
  exists w, In w KEYWORDS /\ rest s = w ++ rest s'
            /\ pos s' = pos s + length w /\ caps s' = caps s.
Proof.
  unfold keyword, KEYWORDS. intros H.
  repeat (apply Matches_alt_inv in H; destruct H as [H | H]);
    apply Matches_lit in H; destruct H as (E & P & C);
    eexists; (split; [|split; [exact E | split; [exact P | exact C]]]);
    simpl; auto 7.
Qed.

Lemma pattern3_shape p0 t0 m :
  run pattern3 (mk_state p0 t0 []) Some = Some m ->
  exists w suffix gap c,
    t0 = w ++ suffix ++ gap ++ c ++ rest m
    /\ In w KEYWORDS
    /\ (suffix = [] \/
        exists x, suffix = [x] /\ In x [chr "数"; chr "件"; chr "率"])
    /\ Forall (fun x => separator_char x = true) gap
    /\ caps m = [(2, (p0 + length w + length suffix + length gap,
                      p0 + length w + length suffix + length gap + length c));
                 (1, (p0, p0 + length w))].
Proof.
  intros H. apply run_sound in H. destruct H as (m' & H & [= ->]).
  unfold pattern3 in H.
  apply Matches_seq_inv in H. destruct H as (s1 & Hg & H).
  apply Matches_group_inv in Hg. destruct Hg as (s1' & Hk & ->).
  apply Matches_keyword in Hk. cbn [pos rest caps] in Hk.
  destruct Hk as (w & Hw & Ek & Pk & Ck).
  apply Matches_seq_inv in H. destruct H as (s2 & Hs & H).
  assert (Hsuf : exists suffix,
            rest s1' = suffix ++ rest s2
            /\ pos s2 = pos s1' + length suffix
            /\ caps s2 = (1, (p0, pos s1')) :: caps s1'
            /\ (suffix = [] \/
                exists x, suffix = [x]
                          /\ In x [chr "数"; chr "件"; chr "率"])).
  { apply Matches_opt_inv in Hs. destruct Hs as [-> | Hs].
    - exists []. cbn [pos rest caps app length]. repeat split; auto.
    - apply Matches_chr in Hs. cbn [pos rest caps] in Hs.
      destruct Hs as (x & Hx & Ex & Px & Cx).
      exists [x]. rewrite Ex, Px, Cx. cbn [app length]. repeat split; try lia.
      right. exists x. split; auto.
      apply orb_true_iff in Hx. destruct Hx as [Hx | Hx];
        [apply orb_true_iff in Hx; destruct Hx as [Hx | Hx]|];
        apply N.eqb_eq in Hx; subst x; simpl; auto. }
  destruct Hsuf as (suffix & Es & Ps & Cs & Hsuf).
  apply Matches_seq_inv in H. destruct H as (s3 & Hw1 & H).
  apply Matches_star_chr in Hw1. destruct Hw1 as (ws & Ew & Fw & Pw & Cw).
  apply Matches_seq_inv in H. destruct H as (s4 & Hw2 & Hg2).
  apply Matches_star_chr in Hw2. destruct Hw2 as (sp & Ep & Fp & Pp & Cp).
  apply Matches_group_inv in Hg2. destruct Hg2 as (s5 & Hn & ->).
  pose proof (Matches_groupless _ _ _ Hn groupless_number) as Cn.
  apply Matches_consumes in Hn. destruct Hn as (c & En & Pn).
  exists w, suffix, (ws ++ sp), c. cbn [pos rest caps].
  rewrite Cn, Cp, Cw, Cs, Ck, Pn, Pp, Pw, Ps, Pk, Ek, Es, Ew, Ep, En.
  rewrite !length_app, <- !app_assoc. repeat split; auto.
  - apply Forall_app. split; [|exact Fp].
    eapply Forall_impl; [|exact Fw]. intros x Hx. unfold separator_char.
    rewrite Hx, orb_true_r. reflexivity.
  - repeat match goal with
           | |- _ :: _ = _ :: _ => f_equal
           | |- (_, _) = (_, _) => f_equal
           end; lia.
Qed.

(** A pair found by pattern 3 has one of the six business terms as its
    label, followed by at most one of the characters 数, 件, 率, then by
    separator characters or nothing, then by the value. *)
Theorem pattern3_keyword t label value :
  In (label, value) (findall pattern3 t) ->
  In label KEYWORDS
  /\ exists pre suffix gap post,
       t = pre ++ label ++ suffix ++ gap ++ value ++ post
       /\ (suffix = [] \/
           exists x, suffix = [x] /\ In x [chr "数"; chr "件"; chr "率"])
       /\ Forall (fun x => separator_char x = true) gap.
Proof.
  unfold findall. rewrite in_map_iff. intros (m & Hm & Hin).
  apply (scan_sound pattern3 t _ _ _ []) in Hin; auto.
  destruct Hin as (pre0 & t0 & Ht & Hrun).
  apply pattern3_shape in Hrun.
  destruct Hrun as (w & suffix & gap & c & Et & Hw & Hs & Fg & Hc).
  assert (Eg1 : group t m 1 = w).
  { unfold group. rewrite Hc. cbn [span Nat.eqb]. rewrite Ht, Et.
    apply slice_app. }
  assert (Eg2 : group t m 2 = c).
  { unfold group. rewrite Hc. cbn [span Nat.eqb]. rewrite Ht, Et.
    replace (pre0 ++ w ++ suffix ++ gap ++ c ++ rest m)
      with ((pre0 ++ w ++ suffix ++ gap) ++ c ++ rest m)
      by (rewrite <- !app_assoc; reflexivity).
    replace (length pre0 + length w + length suffix + length gap)
      with (length (pre0 ++ w ++ suffix ++ gap))
      by (rewrite !length_app; lia).
    apply slice_app. }
  rewrite Eg1, Eg2 in Hm. injection Hm as <- <-.
  split; [exact Hw|].
  exists pre0, suffix, gap, (rest m). rewrite Ht, Et. auto.
Qed.

(** ** Which match wins *)

Lemma fold_last_value ms key : forall found,
  fold_left (fun found m =>
               if str_eqb (strip (fst m)) key then Some (strip (snd m))
               else found) ms found
  = match last_value ms key with Some v => Some v | None => found end.
Proof.
  unfold last_value. induction ms as [|m ms IH]; intros found; cbn [fold_left];
    auto.
  rewrite IH. rewrite (IH (if str_eqb _ _ then _ else None)).
  destruct (fold_left _ ms None); auto.
  destruct (str_eqb (strip (fst m)) key); reflexivity.
Qed.

Lemma store_matches_get ms key : forall d,
  dict_get (store_matches d ms) key
  = match last_value ms key with
    | Some v => Some v
    | None => dict_get d key
    end.
Proof.
  intros d. rewrite <- fold_last_value. revert d.
  unfold store_matches. induction ms as [|m ms IH]; intros d; cbn [fold_left];
    auto.
  rewrite IH. f_equal.
  destruct (str_eqb (strip (fst m)) key) eqn:E.
  - apply str_eqb_eq in E. rewrite E. apply dict_get_set_same.
  - apply dict_get_set_other. intros Heq. rewrite Heq, str_eqb_refl in E.
    discriminate.
Qed.

(** Looking a label up in the mapping gives the value of the last match
    of pattern 3 with that label, else of the last such match of pattern
    2, else of pattern 1; a label no pattern matched is absent. *)
Theorem extract_kpi_values_lookup t key :
  dict_get (_extract_kpi_values t) key
  = match last_value (findall pattern3 t) key with
    | Some v => Some v
    | None =>
        match last_value (findall pattern2 t) key with
        | Some v => Some v
        | None => last_value (findall pattern1 t) key
        end
    end.
Proof.
  unfold _extract_kpi_values, patterns. simpl fold_left.
  rewrite !store_matches_get. simpl.
  destruct (last_value (findall pattern1 t) key); reflexivity.
Qed.

End Patterns.

(* ================================================================== *)
(** * Runs that find nothing *)
(* ================================================================== *)

Section Nothing.
Context {R : PyRuntime} {S : Type} {service : SheetsService S}.
Variable client : WebClient.

Lemma no_individual_data limit :
  (forall ch, In ch (delivered (conversations_list client true)) ->
              extract_person_name (name ch) = None) ->
  get_all_individual_kpi_data client limit = [].
Proof.
  intros H.
  destruct (individual_kpi_data_facts client limit) as (_ & Hk & _ & Hi).
  destruct (get_all_individual_kpi_data client limit) as [|[p recs] d];
    [reflexivity|].
  exfalso. destruct (proj1 (Hk p) (or_introl eq_refl)) as (ch & Hch & Hp).
  apply Hi in Hch. destruct Hch as [Hin _]. rewrite (H ch Hin) in Hp.
  discriminate.
Qed.

(** When no listed channel is an individual channel, the sync reports
    zero counters and leaves the spreadsheet as it was: no sheet is
    created, cleared or written; the command exits with 0. *)
Theorem sync_without_individual_channels now limit details no_details s :
  (forall ch, In ch (delivered (conversations_list client true)) ->
              extract_person_name (name ch) = None) ->
  sync_all_individual_kpi client now limit details s
  = ({| channels_processed := 0; messages_synced := 0; errors := 0 |}, s)
  /\ cmd_sync client now limit no_details s = (0%Z, s).
Proof.
  intros H. pose proof (no_individual_data limit H) as Hd.
  assert (E : forall d, sync_all_individual_kpi client now limit d s
              = ({| channels_processed := 0; messages_synced := 0;
                    errors := 0 |}, s))
    by (intros d; unfold sync_all_individual_kpi; rewrite Hd; reflexivity).
  split; [apply E|].
  unfold cmd_sync, bind. rewrite E. reflexivity.
Qed.

Lemma gather_unlisted cm limit names : forall kpi stats,
  (forall n, In n names -> dict_get cm n = None) ->
  fold_left (gather_channel client cm limit) names (kpi, stats)
  = (kpi, {| channels_processed := channels_processed stats;
             messages_synced := messages_synced stats;
             errors := errors stats + length names |}).
Proof.
  induction names as [|n names IH]; intros kpi stats H; cbn [fold_left].
  - destruct stats. simpl. rewrite Nat.add_0_r. reflexivity.
  - unfold gather_channel at 2. rewrite (H n (or_introl eq_refl)).
    rewrite IH by (intros n' Hn'; apply H; right; exact Hn').
    simpl. f_equal. f_equal. lia.
Qed.

(** When none of the requested names is the name of a listed channel, the
    explicit-list sync counts one error per name and leaves the
    spreadsheet as it was. *)
Theorem sync_specific_unlisted now names limit s :
  (forall n, In n names ->
     existsb (fun ch => str_eqb (name ch) n) (get_all_channels client true)
     = false) ->
  sync_specific_channels client now names limit s
  = ({| channels_processed := 0; messages_synced := 0;
        errors := length names |}, s).
Proof.
  intros H. unfold sync_specific_channels, gather_channels.
  rewrite gather_unlisted; [reflexivity|].
  intros n Hn. apply channel_map_listed. apply H. exact Hn.
Qed.

End Nothing.

(* ================================================================== *)
(** * The further properties at concrete inputs *)
(* ================================================================== *)

Lemma cpython_digits : @ascii_digits_known cpython.
Proof.
  intros d Hd.
  assert (Hc : (d = 0 \/ d = 1 \/ d = 2 \/ d = 3 \/ d = 4 \/ d = 5 \/ d = 6
                \/ d = 7 \/ d = 8 \/ d = 9)%N) by lia.
  repeat (destruct Hc as [-> | Hc]; [split; reflexivity|]).
  subst d. split; reflexivity.
Qed.

Lemma cpython_values_not_blank : @values_not_blank cpython.
Proof.
  split.
  - intros c H. unfold isdecimal in H. cbn [decimal_value cpython] in H.
    unfold cpython_decimal_value in H.
    assert (Hr : (0x30 <= c <= 0x39 \/ 0x660 <= c <= 0x669
                  \/ 0xFF10 <= c <= 0xFF19)%N).
    { destruct (N.leb_spec 0x30 c), (N.leb_spec c 0x39); simpl in H; try lia;
        destruct (N.leb_spec 0x660 c), (N.leb_spec c 0x669); simpl in H;
        try lia;
        destruct (N.leb_spec 0xFF10 c), (N.leb_spec c 0xFF19); simpl in H;
        try lia; discriminate. }
    cbn [isspace cpython]. unfold cpython_isspace.
    repeat match goal with
           | |- context [N.leb ?a ?b] =>
               destruct (N.leb_spec a b); [try lia | try lia]
           | |- context [N.eqb ?a ?b] =>
               destruct (N.eqb_spec a b); [try lia | try lia]
           end; reflexivity.
  - intros c Hc. simpl in Hc.
    repeat (destruct Hc as [<- | Hc]; [reflexivity|]). contradiction.
Qed.

(** A record of the sample channel A. *)
Lemma channel_records_invariant_witness :
  channel_id record_A = id channel_A
  /\ kpi_values record_A = _extract_kpi_values (text record_A).
Proof.
  assert (Hin : In record_A (get_kpi_data_from_channel workspace channel_A 100))
    by (vm_compute; left; reflexivity).
  pose proof (channel_records_invariant workspace channel_A 100 record_A Hin)
    as H.
  tauto.
Defined.

(** The status read from the overview of the sample workspace. *)
Lemma status_reads_overview_witness :
  status_of (_prepare_overview_data sync_instant
               (get_all_individual_kpi_data workspace 100))
  = {| last_sync := Some (strftime sync_instant);
       channels_synced := 3;
       total_messages := 2 |}.
Proof.
  exact (status_reads_overview cpython_digits sync_instant
           (get_all_individual_kpi_data workspace 100)).
Defined.

(** The value of the spec's example is a number with a unit. *)
Lemma extracted_values_are_numbers_witness :
  number_shaped (u "50件") /\ substring (u "50件") (u "架電50件").
Proof.
  apply (extracted_values_are_numbers (u "架電50件") (u "架電") (u "50件")
           cpython_values_not_blank).
  vm_compute. left. reflexivity.
Defined.

(** Pattern 2 on a bracketed label. *)
Lemma pattern2_bracketed_witness :
  exists pre ws post,
    u "【面談】 2.5回"
    = pre ++ [chr "【"] ++ u "面談" ++ [chr "】"] ++ ws ++ u "2.5回" ++ post
    /\ u "面談" <> [] /\ ~ In (chr "】") (u "面談")
    /\ Forall (fun x => isspace x = true) ws.
Proof.
  apply (pattern2_bracketed (u "【面談】 2.5回") (u "面談") (u "2.5回")).
  vm_compute. left. reflexivity.
Defined.

(** Pattern 3 on a keyword directly followed by its number. *)
Lemma pattern3_keyword_witness : In (u "架電") KEYWORDS.
Proof.
  apply (pattern3_keyword (u "架電50件") (u "架電") (u "50件")).
  vm_compute. left. reflexivity.
Defined.

(** A workspace whose two channels are not individual ones. *)
Lemma sync_without_individual_channels_witness :
  sync_all_individual_kpi (service := memory_service []) quiet_workspace
    sync_instant 100 true []
  = ({| channels_processed := 0; messages_synced := 0; errors := 0 |}, []).
Proof.
  apply (sync_without_individual_channels (service := memory_service [])
           quiet_workspace sync_instant 100 true false []).
  intros ch [<- | [<- | []]]; reflexivity.
Defined.

(** Two requested names that the sample workspace does not list. *)
Lemma sync_specific_unlisted_witness :
  sync_specific_channels (service := memory_service []) workspace
    sync_instant [u "sales"; u "個人_山田"] 100 []
  = ({| channels_processed := 0; messages_synced := 0; errors := 2 |}, []).
Proof.
  apply (sync_specific_unlisted (service := memory_service []) workspace
           sync_instant [u "sales"; u "個人_山田"] 100 []).
  intros n [<- | [<- | []]]; reflexivity.
Defined.
